(** * Gas report generator and PR comment helper: a shallow embedding

    The development follows the two scripts of the repository:

    - [gas-report.js]: [parseGasDiff], [formatGasValue],
      [calculatePercentageChange], [generateMarkdownTable],
      [generateSummary], [generateFooter], [generateNoChangesReport],
      [generateAboutSection], [generateFullReport];
    - [workflow-utils.js]: [findBotComment], [postOrUpdateComment]
      (both revisions that the repository carries).

    Modelling choices.

    - A JavaScript string is a sequence of UTF-16 code units: [jsstring] is
      [list N].  Literals of the source are written [lit "..."] when they are
      ASCII; the emoji of the source are given by their code units.
    - A JavaScript number that holds an integer is a [Z].  Integer
      arithmetic on numbers is exact as long as every value stays a safe
      integer (magnitude at most [2^53 - 1]); the embedding describes the
      scripts on that range.
    - Regular expressions are kept as syntax ([regex]) and run by a
      backtracking matcher with the priorities of the language (greedy and
      lazy repetition, leftmost match, capture groups, assertions).
    - [process.env] and the clock are an explicit [world] value.
    - [Array.prototype.sort] is the stable sort that ECMAScript 2019
      prescribes.
    - The PR's comments, kept by the remote API, are an explicit list. *)

From Stdlib Require Import String Ascii DecimalString DecimalPos.
From Stdlib Require Import List ZArith NArith Bool Lia
  Sorting.Permutation Sorting.Sorted.
Import ListNotations.

Local Open Scope Z_scope.

(** ** Strings *)

Definition jsstring := list N.

Definition lit (s : string) : jsstring := map N_of_ascii (list_ascii_of_string s).

Definition LF : N := 10%N.

Definition jsstring_eqb (a b : jsstring) : bool :=
  if list_eq_dec N.eq_dec a b then true else false.

(** [WhiteSpace] and [LineTerminator] code points of the language: what
    [String.prototype.trim] strips and what [\s] matches. *)
Definition isWhiteSpace (c : N) : bool :=
  ((9 <=? c) && (c <=? 13) || (c =? 32) || (c =? 160) || (c =? 5760)
   || (8192 <=? c) && (c <=? 8202) || (c =? 8232) || (c =? 8233)
   || (c =? 8239) || (c =? 8287) || (c =? 12288) || (c =? 65279))%N.

(** [LineTerminator]: what [.] refuses. *)
Definition isLineTerminator (c : N) : bool :=
  ((c =? 10) || (c =? 13) || (c =? 8232) || (c =? 8233))%N.

Definition isDigit (c : N) : bool := ((48 <=? c) && (c <=? 57))%N.

(** [\w]: ASCII letters, digits and the underscore. *)
Definition isWordChar (c : N) : bool :=
  ((65 <=? c) && (c <=? 90) || (97 <=? c) && (c <=? 122) || isDigit c || (c =? 95))%N.

Fixpoint trimStart (s : jsstring) : jsstring :=
  match s with
  | c :: s' => if isWhiteSpace c then trimStart s' else s
  | [] => []
  end.

Definition trimEnd (s : jsstring) : jsstring := rev (trimStart (rev s)).

(** [s.trim()] *)
Definition trim (s : jsstring) : jsstring := trimEnd (trimStart s).

(** [s.split('\n')]: the pieces between line feeds; one piece more than
    there are line feeds. *)
Fixpoint split_lines (s : jsstring) : list jsstring :=
  match s with
  | [] => [[]]
  | c :: s' =>
      match split_lines s' with
      | l :: ls => if (c =? LF)%N then [] :: l :: ls else (c :: l) :: ls
      | [] => [[c]]
      end
  end.

(** Truthiness of a string: the empty string is the only falsy one. *)
Definition truthy_str (s : jsstring) : bool :=
  match s with [] => false | _ :: _ => true end.

Fixpoint isPrefixOf (m s : jsstring) : bool :=
  match m, s with
  | [], _ => true
  | a :: m', b :: s' => (a =? b)%N && isPrefixOf m' s'
  | _ :: _, [] => false
  end.

(** [s.includes(m)] *)
Fixpoint includes (s m : jsstring) : bool :=
  isPrefixOf m s || match s with [] => false | _ :: s' => includes s' m end.

(** [s.substring(0, n)] for [0 <= n]. *)
Definition substring0 (n : nat) (s : jsstring) : jsstring := firstn n s.

(** ** Numbers *)

(** [Number.prototype.toString] on a safe integer: its decimal digits, with
    a leading minus sign below zero.  Beyond the safe integers a number of
    the language no longer prints as the digits of an integer (shortest
    digits that read back, exponent notation from [1e21] on): statements
    that print a number of their own bound it by [MAX_SAFE_INTEGER]. *)
Definition toString (z : Z) : jsstring :=
  lit (NilZero.string_of_int (Z.to_int z)).

Definition digitValue (c : N) : Z := Z.of_N (c - 48).

(** [parseInt] on a string that starts with a decimal digit, as every
    [(\d+)] capture does: the value of the leading run of digits.  The
    language rounds that value to a number; it is the value itself as long
    as it is a safe integer. *)
Fixpoint parseInt_from (acc : Z) (s : jsstring) : Z :=
  match s with
  | c :: s' => if isDigit c then parseInt_from (10 * acc + digitValue c) s' else acc
  | [] => acc
  end.

Definition parseInt (s : jsstring) : Z := parseInt_from 0 s.

(** ** Regular expressions *)

Inductive regex : Type :=
| Chr (p : N -> bool)               (* one code unit: literal, class or [.] *)
| Seq (r1 r2 : regex)               (* r1 r2 *)
| Star (greedy : bool) (r : regex)  (* r* and r*? *)
| Group (n : nat) (r : regex)       (* the n-th capturing group *)
| Bol                               (* ^ (no m flag) *)
| Eol                               (* $ (no m flag) *)
| NotWordBoundary                   (* \B *)
| Look (positive : bool) (r : regex). (* (?=r) and (?!r) *)

(** r+ and r+? *)
Definition Plus (greedy : bool) (r : regex) : regex := Seq r (Star greedy r).

(** A position in the subject: the code unit before it, and what is left. *)
Record position := Pos { before : option N; rest : jsstring }.

Definition captures := list (nat * jsstring).

Fixpoint group (n : nat) (c : captures) : option jsstring :=
  match c with
  | [] => None
  | (k, s) :: c' => if Nat.eqb k n then Some s else group n c'
  end.

Definition outcome := option (position * captures).
Definition continuation := position -> captures -> outcome.

(** What the subject holds between two positions, the second one reached
    from the first. *)
Definition between (p q : position) : jsstring :=
  firstn (length (rest p) - length (rest q)) (rest p).

Definition orElse (a b : outcome) : outcome :=
  match a with Some x => Some x | None => b end.

(** Repetition.  An iteration that consumes nothing is refused, as the
    language does; so at most one iteration per code unit left. *)
Fixpoint star_loop (body : position -> captures -> continuation -> outcome)
    (greedy : bool) (k : continuation) (fuel : nat)
    (p : position) (c : captures) : outcome :=
  match fuel with
  | O => k p c
  | S fuel' =>
      let again :=
        body p c (fun p' c' =>
          if (length (rest p') <? length (rest p))%nat
          then star_loop body greedy k fuel' p' c'
          else None) in
      if greedy then orElse again (k p c) else orElse (k p c) again
  end.

Definition isWordAt (o : option N) : bool :=
  match o with Some c => isWordChar c | None => false end.

Fixpoint run (r : regex) (p : position) (c : captures) (k : continuation) : outcome :=
  match r with
  | Chr f =>
      match rest p with
      | x :: xs => if f x then k (Pos (Some x) xs) c else None
      | [] => None
      end
  | Seq r1 r2 => run r1 p c (fun p' c' => run r2 p' c' k)
  | Star greedy r1 => star_loop (run r1) greedy k (length (rest p)) p c
  | Group n r1 => run r1 p c (fun p' c' => k p' ((n, between p p') :: c'))
  | Bol => match before p with None => k p c | Some _ => None end
  | Eol => match rest p with [] => k p c | _ :: _ => None end
  | NotWordBoundary =>
      if Bool.eqb (isWordAt (before p)) (isWordAt (hd_error (rest p)))
      then k p c else None
  | Look positive r1 =>
      match run r1 p c (fun p' c' => Some (p', c')) with
      | Some (_, c') => if positive then k p c' else None
      | None => if positive then None else k p c
      end
  end.

(** One attempt at a given position. *)
Definition matchAt (r : regex) (p : position) : outcome :=
  run r p [] (fun p' c' => Some (p', c')).

(** [RegExp.prototype.exec] without the g flag: the first position, from
    the left, at which the expression matches. *)
Fixpoint exec_from (r : regex) (prev : option N) (s : jsstring) : option captures :=
  match matchAt r (Pos prev s) with
  | Some (_, c) => Some c
  | None =>
      match s with
      | [] => None
      | x :: xs => exec_from r (Some x) xs
      end
  end.

(** [s.match(r)] for an expression without the g flag. *)
Definition str_match (s : jsstring) (r : regex) : option captures :=
  exec_from r None s.

(** [s.replace(r, by)] for an expression with the g flag: every match,
    from the left and without overlap, is replaced; after an empty match
    the search resumes one code unit further. *)
Fixpoint replace_from (r : regex) (by_ : jsstring) (skip : nat)
    (prev : option N) (s : jsstring) : jsstring :=
  match skip with
  | S skip' =>
      match s with
      | [] => []
      | x :: xs => replace_from r by_ skip' (Some x) xs
      end
  | O =>
      match matchAt r (Pos prev s) with
      | Some (q, _) =>
          match (length s - length (rest q))%nat, s with
          | O, [] => by_
          | O, x :: xs => by_ ++ x :: replace_from r by_ 0 (Some x) xs
          | S n, [] => by_
          | S n, x :: xs => by_ ++ replace_from r by_ n (Some x) xs
          end
      | None =>
          match s with
          | [] => []
          | x :: xs => x :: replace_from r by_ 0 (Some x) xs
          end
      end
  end.

Definition replaceAll (s : jsstring) (r : regex) (by_ : jsstring) : jsstring :=
  replace_from r by_ 0 None s.

Definition oneOf (c : string) : N -> bool :=
  fun x => existsb (N.eqb x) (lit c).
Definition noneOf (c : string) : N -> bool := fun x => negb (oneOf c x).
Definition dot : N -> bool := fun x => negb (isLineTerminator x).

(** ** gas-report.js: the parser *)

Inductive changeType := improvement | regression.

Record change := Change {
  type : changeType;
  contract : jsstring;
  function : jsstring;
  oldGas : option Z;      (* [null] or a number *)
  newGas : Z;
  gasChange : Z
}.

(** ([^:]+):([^(]+)\(\).*?(\d+)\s*$ *)
Definition dataLineRe : regex :=
  Seq (Group 2 (Plus true (Chr (noneOf ":"))))
 (Seq (Chr (oneOf ":"))
 (Seq (Group 3 (Plus true (Chr (noneOf "("))))
 (Seq (Chr (oneOf "("))
 (Seq (Chr (oneOf ")"))
 (Seq (Star false (Chr dot))
 (Seq (Group 4 (Plus true (Chr isDigit)))
 (Seq (Star true (Chr isWhiteSpace))
      Eol))))))).

(** /^([+-])([^:]+):([^(]+)\(\).*?(\d+)\s*$/ *)
Definition changeRe : regex :=
  Seq Bol (Seq (Group 1 (Chr (oneOf "+-"))) dataLineRe).

(** /(\d+)\s*->\s*(\d+)/ *)
Definition oldGasRe : regex :=
  Seq (Group 1 (Plus true (Chr isDigit)))
 (Seq (Star true (Chr isWhiteSpace))
 (Seq (Chr (oneOf "-"))
 (Seq (Chr (oneOf ">"))
 (Seq (Star true (Chr isWhiteSpace))
      (Group 2 (Plus true (Chr isDigit))))))).

(** A capture that took part in the match; [undefined] reads as the empty
    string, which no group of [changeRe] ever is. *)
Definition captured (n : nat) (c : captures) : jsstring :=
  match group n c with Some s => s | None => [] end.

(** The body of the loop of [parseGasDiff]: the record that one line adds,
    if any. *)
Definition parseLine (line : jsstring) : list change :=
  match str_match line changeRe with
  | Some changeMatch =>
      let sign := captured 1 changeMatch in
      let contract := captured 2 changeMatch in
      let func := captured 3 changeMatch in
      let newGas := captured 4 changeMatch in
      let oldGas : option jsstring :=
        match str_match line oldGasRe with
        | Some oldGasMatch => group 1 oldGasMatch
        | None => None
        end in
      (* a string is truthy unless it is empty; [null] is falsy *)
      let known := match oldGas with Some s => truthy_str s | None => false end in
      let old := match oldGas with Some s => parseInt s | None => 0 end in
      [ {| type := if jsstring_eqb sign (lit "+") then regression else improvement;
           contract := trim contract;
           function := trim func;
           oldGas := if known then Some old else None;
           newGas := parseInt newGas;
           gasChange := if known then parseInt newGas - old else parseInt newGas |} ]
  | None => []
  end.

Definition parseGasDiff (diffOutput : jsstring) : list change :=
  let lines := filter (fun line => truthy_str (trim line)) (split_lines diffOutput) in
  flat_map parseLine lines.

(** ** gas-report.js: formatting *)

Definition threeDigits : regex := Seq (Chr isDigit) (Seq (Chr isDigit) (Chr isDigit)).

(** /\B(?=(\d{3})+(?!\d))/g *)
Definition thousandsRe : regex :=
  Seq NotWordBoundary
      (Look true (Seq (Plus true (Group 1 threeDigits)) (Look false (Chr isDigit)))).

Definition formatGasValue (value : Z) : jsstring :=
  replaceAll (toString value) thousandsRe (lit ",").

(** Truthiness of a number or [null]: [null] and [0] are falsy. *)
Definition truthy_num (v : option Z) : bool :=
  match v with Some z => negb (z =? 0) | None => false end.

Definition numberOr0 (v : option Z) : Z :=
  match v with Some z => z | None => 0 end.

Definition green : jsstring := [55357; 57314]%N.   (* U+1F7E2 *)
Definition red : jsstring := [55357; 56628]%N.     (* U+1F534 *)
Definition white : jsstring := [9898]%N.           (* U+26AA *)
Definition chart : jsstring := [55357; 56522]%N.   (* U+1F4CA *)
Definition check : jsstring := [9989]%N.           (* U+2705 *)
Definition info : jsstring := [8505; 65039]%N.     (* U+2139 U+FE0F *)

Definition changeType_eqb (a b : changeType) : bool :=
  match a, b with
  | improvement, improvement | regression, regression => true
  | _, _ => false
  end.

(** [Array.prototype.sort(comparefn)]: the stable sort of ECMAScript 2019.
    [comparefn a b <= 0] keeps [a] before [b]. *)
Section Sort.
Context {A : Type} (comparefn : A -> A -> Z).

Fixpoint insert (x : A) (l : list A) : list A :=
  match l with
  | [] => [x]
  | y :: l' => if comparefn x y <=? 0 then x :: y :: l' else y :: insert x l'
  end.

Fixpoint sort (l : list A) : list A :=
  match l with
  | [] => []
  | x :: l' => insert x (sort l')
  end.
End Sort.

(** [a.slice(0, limit)] for an integer [limit]: a negative one counts from
    the end. *)
Definition slice0 {A : Type} (l : list A) (limit : Z) : list A :=
  let len := Z.of_nat (length l) in
  let final := if limit <? 0 then Z.max (len + limit) 0 else Z.min limit len in
  firstn (Z.to_nat final) l.

(** (a, b) => Math.abs(b.gasChange) - Math.abs(a.gasChange) *)
Definition byAbsGasChange (a b : change) : Z :=
  Z.abs (gasChange b) - Z.abs (gasChange a).

Definition tableHeader : jsstring :=
  lit "| Contract | Function | Before | After | Change |
|----------|----------|--------|-------|--------|
".

Definition noTable : jsstring :=
  lit "No gas changes detected in individual functions.".

Definition truncationNote (limit : Z) (total : nat) : jsstring :=
  [LF] ++ lit "*Showing top " ++ toString limit ++ lit " changes out of "
       ++ toString (Z.of_nat total) ++ lit " total.*".

(** The default value of the parameter [limit]. *)
Definition limitOrDefault (limit : option Z) : Z :=
  match limit with Some l => l | None => 20 end.

Section Rendering.
(** [(((newVal - oldVal) / oldVal) * 100).toFixed(2)]: binary floating
    point and its decimal rounding are left to this parameter. *)
Variable percentFixed2 : Z -> Z -> jsstring.

Definition calculatePercentageChange (oldVal : option Z) (newVal : Z) : jsstring :=
  if negb (truthy_num oldVal) || (numberOr0 oldVal =? 0) then lit "N/A"
  else percentFixed2 (numberOr0 oldVal) newVal ++ lit "%".

(** The body of the loop of [generateMarkdownTable]: one row. *)
Definition renderRow (change : change) : jsstring :=
  let icon := if changeType_eqb (type change) improvement then green else red in
  let sign := if gasChange change >? 0 then lit "+" else [] in
  let before := if truthy_num (oldGas change)
                then formatGasValue (numberOr0 (oldGas change)) else lit "New" in
  let after := formatGasValue (newGas change) in
  let diff := icon ++ lit " " ++ sign ++ formatGasValue (gasChange change) in
  let percentage :=
    if truthy_num (oldGas change)
    then lit " (" ++ calculatePercentageChange (oldGas change) (newGas change) ++ lit ")"
    else [] in
  lit "| " ++ contract change ++ lit " | " ++ function change ++ lit "() | "
    ++ before ++ lit " | " ++ after ++ lit " | " ++ diff ++ percentage
    ++ lit " |" ++ [LF].

(** The table, and the array as the call leaves it: [sort] works in
    place, so the caller's array is sorted afterwards. *)
Definition generateMarkdownTable (changes : list change) (limit : option Z)
  : jsstring * list change :=
  let limit := limitOrDefault limit in
  if (length changes =? 0)%nat then (noTable, changes)
  else
    let changes := sort byAbsGasChange changes in
    let table := tableHeader in
    let displayChanges := slice0 changes limit in
    let table := fold_left (fun table change => table ++ renderRow change)
                           displayChanges table in
    let table := if Z.of_nat (length changes) >? limit
                 then table ++ truncationNote limit (length changes)
                 else table in
    (table, changes).
End Rendering.

(** ** gas-report.js: the summary *)

Record summary := Summary {
  improvements : nat;
  regressions : nat;
  totalImprovement : Z;
  totalRegression : Z;
  netChange : Z;
  netIcon : jsstring;
  netText : jsstring
}.

Definition generateSummary (changes : list change) : summary :=
  let improvements := filter (fun c => changeType_eqb (type c) improvement) changes in
  let regressions := filter (fun c => changeType_eqb (type c) regression) changes in
  let totalImprovement := fold_left (fun sum c => sum + Z.abs (gasChange c)) improvements 0 in
  let totalRegression := fold_left (fun sum c => sum + Z.abs (gasChange c)) regressions 0 in
  let netChange := totalRegression - totalImprovement in
  let '(netIcon, netText) :=
    if netChange >? 0 then (red, lit "+" ++ formatGasValue netChange ++ lit " gas")
    else if netChange <? 0 then (green, formatGasValue netChange ++ lit " gas")
    else (white, lit "No change") in
  {| improvements := length improvements;
     regressions := length regressions;
     totalImprovement := totalImprovement;
     totalRegression := totalRegression;
     netChange := netChange;
     netIcon := netIcon;
     netText := netText |}.

(** ** gas-report.js: the report *)

(** What a call reads from its surroundings: [process.env], and the string
    that [new Date().toUTCString()] gives at that moment. *)
Record world := World {
  env : string -> option jsstring;
  utcNow : jsstring
}.

(** [v || d] for a string or [undefined]. *)
Definition orDefault (v : option jsstring) (d : jsstring) : jsstring :=
  match v with
  | Some s => if truthy_str s then s else d
  | None => d
  end.

Definition generateFooter (w : world) (shortSha fullCommitSha : jsstring) : jsstring :=
  let timestamp := utcNow w in
  let repo := orDefault (env w "GITHUB_REPOSITORY") (lit "owner/repo") in
  let commitLink :=
    lit "[`" ++ orDefault (Some shortSha) (lit "unknown")
      ++ lit "`](https://github.com/" ++ repo ++ lit "/commit/" ++ fullCommitSha ++ lit ")" in
  lit "*Last updated: " ++ timestamp ++ lit "* for commit " ++ commitLink.

Definition reportTitle : jsstring :=
  lit "## " ++ chart ++ lit " Gas Report

".

Definition generateNoChangesReport (w : world)
    (baseBranch headBranch shortSha fullCommitSha : jsstring) : jsstring :=
  reportTitle ++ lit "No gas usage changes detected between `" ++ baseBranch
    ++ lit "` and `" ++ headBranch ++ lit "`.

All functions maintain the same gas costs. " ++ check ++ lit "

" ++ generateFooter w shortSha fullCommitSha.

Definition generateAboutSection : jsstring :=
  lit "<details>
<summary>" ++ info ++ lit " About this report</summary>

This report compares gas usage between the base branch and this PR using `forge snapshot`.
- " ++ green ++ lit " indicates a gas improvement (reduction)
- " ++ red ++ lit " indicates a gas regression (increase)
- Functions not shown have unchanged gas costs

To run this locally:
```bash
# Generate snapshot for current branch
forge snapshot

# Compare with another branch
git checkout main
forge snapshot --diff .gas-snapshot
```

</details>".

Record prInfo := PrInfo {
  baseBranch : option jsstring;
  headBranch : option jsstring;
  commitSha : option jsstring
}.

Section Report.
Variable percentFixed2 : Z -> Z -> jsstring.

Definition generateFullReport (w : world) (diffOutput : jsstring) (prInfo : prInfo)
  : jsstring :=
  let baseBranch := orDefault (baseBranch prInfo) (lit "base") in
  let headBranch := orDefault (headBranch prInfo) (lit "head") in
  let fullCommitSha := orDefault (commitSha prInfo) [] in
  let shortSha := if truthy_str fullCommitSha then substring0 7 fullCommitSha else [] in
  if negb (truthy_str diffOutput) || (length (trim diffOutput) =? 0)%nat
  then generateNoChangesReport w baseBranch headBranch shortSha fullCommitSha
  else
    let changes := parseGasDiff diffOutput in
    if (length changes =? 0)%nat
    then generateNoChangesReport w baseBranch headBranch shortSha fullCommitSha
    else
      let summary := generateSummary changes in
      let '(table, changes) := generateMarkdownTable percentFixed2 changes None in
      reportTitle ++ lit "Comparing gas usage between `" ++ baseBranch
        ++ lit "` and `" ++ headBranch ++ lit "`

### Summary
- **Optimized:** " ++ toString (Z.of_nat (improvements summary)) ++ lit " functions ("
        ++ green ++ lit " -" ++ formatGasValue (totalImprovement summary) ++ lit " gas)
- **Increased:** " ++ toString (Z.of_nat (regressions summary)) ++ lit " functions ("
        ++ red ++ lit " +" ++ formatGasValue (totalRegression summary) ++ lit " gas)
- **Net Change:** " ++ netIcon summary ++ lit " " ++ netText summary ++ lit "

### Details

" ++ table ++ lit "

" ++ (if (20 <? length changes)%nat
    then lit "
<details>
<summary>View all " ++ toString (Z.of_nat (length changes)) ++ lit " changes</summary>

" ++ fst (generateMarkdownTable percentFixed2 changes
          (Some (Z.of_nat (length changes)))) ++ lit "

</details>
"
    else []) ++ lit "

" ++ generateAboutSection ++ lit "

" ++ generateFooter w shortSha fullCommitSha.
End Report.

(** ** workflow-utils.js: the comment of the bot *)

Module WorkflowUtils.

(** The author of a comment: [comment.user]. *)
Record account := Account {
  login : jsstring;
  type : option jsstring     (* the field may be missing *)
}.

Record comment := Comment {
  id : Z;
  user : account;
  body : jsstring
}.

(** The repository carries the helper twice; the two differ in how
    [findBotComment] tells a bot. *)
Inductive revision :=
| ByType           (* comment.user.type === 'Bot' *)
| ByTypeOrLogin.   (* ... || login === 'github-actions[bot]' || login.includes('[bot]') *)

Definition typeIsBot (a : account) : bool :=
  match type a with
  | Some t => jsstring_eqb t (lit "Bot")
  | None => false
  end.

Definition isBot (rev : revision) (c : comment) : bool :=
  match rev with
  | ByType => typeIsBot (user c)
  | ByTypeOrLogin =>
      typeIsBot (user c)
      || jsstring_eqb (login (user c)) (lit "github-actions[bot]")
      || includes (login (user c)) (lit "[bot]")
  end.

(** The remote side: the comments of the PR, in the order of the listing.
    [listComments] is taken to return all of them. *)
Definition listComments (comments : list comment) : list comment := comments.

(** [updateComment]: the comment of that identifier gets the new body. *)
Definition updateComment (comments : list comment) (comment_id : Z) (body : jsstring)
  : list comment :=
  map (fun c => if id c =? comment_id
                then {| id := id c; user := user c; body := body |}
                else c) comments.

Definition freshId (comments : list comment) : Z :=
  1 + fold_right Z.max 0 (map id comments).

(** [createComment]: a new comment, written by the account that runs the
    workflow, is added to the PR. *)
Definition createComment (actor : account) (comments : list comment) (body : jsstring)
  : list comment :=
  comments ++ [ {| id := freshId comments; user := actor; body := body |} ].

(** The test of [comments.find] in [findBotComment]. *)
Definition isBotComment (rev : revision) (commentMarker : jsstring) (c : comment) : bool :=
  isBot rev c && includes (body c) commentMarker.

Definition findBotComment (rev : revision) (comments : list comment)
    (commentMarker : jsstring) : option comment :=
  find (isBotComment rev commentMarker) (listComments comments).

(** The comments of the PR after the call. *)
Definition postOrUpdateComment (rev : revision) (actor : account)
    (comments : list comment) (body commentMarker : jsstring) : list comment :=
  match findBotComment rev comments commentMarker with
  | Some existingComment => updateComment comments (id existingComment) body
  | None => createComment actor comments body
  end.

End WorkflowUtils.

(** ** The files and the command line *)

(** The files by path, [None] where there is no file.  Directories and
    access rights are left out, and so is what goes to the console: of a
    path that [fs.existsSync] finds, [fs.readFileSync] returns the content,
    and [fs.writeFileSync] succeeds. *)
Definition files := jsstring -> option jsstring.

(** [fs.writeFileSync(path, content)] *)
Definition writeFileSync (fs : files) (path content : jsstring) : files :=
  fun p => if jsstring_eqb p path then Some content else fs p.

(** A call returns a value or throws. *)
Inductive completion (A : Type) : Type :=
| Returned (a : A)
| Threw.
Arguments Returned {A} a.
Arguments Threw {A}.

(** The expression that matches the code units of [l], then [next]. *)
Definition literalOf (l : jsstring) (next : regex) : regex :=
  fold_right (fun c r => Seq (Chr (N.eqb c)) r) next l.

(** /PR_NUMBER=(\d+)/ *)
Definition prNumberRe : regex :=
  literalOf (lit "PR_NUMBER=") (Group 1 (Plus true (Chr isDigit))).

(** How a run of the script goes on after a call: the call returns, or the
    process exits with a code. *)
Inductive progress : Type :=
| Continues (fs : files)
| Exits (code : Z) (fs : files).

Section Files.
(** [path.join] on two strings. *)
Variable join : jsstring -> jsstring -> jsstring.

(** workflow-utils.js.  [path.join] throws when [GITHUB_WORKSPACE] is not
    set; the file is read only where [fs.existsSync] finds it. *)
Definition parsePRNumber (w : world) (fs : files) (dataFileName : jsstring)
  : completion (option Z) :=
  match env w "GITHUB_WORKSPACE" with
  | None => Threw
  | Some workspace =>
      let dataPath := join workspace dataFileName in
      match fs dataPath with
      | None => Returned None
      | Some dataContent =>
          match str_match dataContent prNumberRe with
          | None => Returned None
          | Some prMatch => Returned (Some (parseInt (captured 1 prMatch)))
          end
      end
  end.

(** workflow-utils.js *)
Definition readReport (w : world) (fs : files) (reportFileName : jsstring)
  : completion (option jsstring) :=
  match env w "GITHUB_WORKSPACE" with
  | None => Threw
  | Some workspace =>
      let reportPath := join workspace reportFileName in
      match fs reportPath with
      | None => Returned None
      | Some content => Returned (Some content)
      end
  end.

Variable percentFixed2 : Z -> Z -> jsstring.

(** gas-report.js.  [cwd] is [process.cwd()]. *)
Definition generateReportFromFile (w : world) (cwd : jsstring) (fs : files) : progress :=
  let diffPath := join cwd (lit "gas-diff.txt") in
  match fs diffPath with
  | None => Exits 1 fs
  | Some diffOutput =>
      let prInfo :=
        {| baseBranch := Some (orDefault (env w "BASE_BRANCH") (lit "main"));
           headBranch := Some (orDefault (env w "HEAD_BRANCH") (lit "feature"));
           commitSha := env w "HEAD_SHA" |} in
      let report := generateFullReport percentFixed2 w diffOutput prInfo in
      let reportPath := join cwd (lit "gas-report.md") in
      Continues (writeFileSync fs reportPath report)
  end.

(** gas-report.js run as a script: [command] is [process.argv[2]]; the
    result is the exit code and the files the run leaves. *)
Definition main (w : world) (cwd : jsstring) (command : option jsstring) (fs : files)
  : Z * files :=
  match command with
  | Some c =>
      if jsstring_eqb c (lit "generate")
      then match generateReportFromFile w cwd fs with
           | Continues fs' => (0, fs')
           | Exits code fs' => (code, fs')
           end
      else (1, fs)
  | None => (1, fs)
  end.
End Files.

(** * Notions used in the statements *)

(** The sum of the absolute gas changes of the records of one type. *)
Fixpoint sumAbs (t : changeType) (changes : list change) : Z :=
  match changes with
  | [] => 0
  | c :: cs =>
      (if changeType_eqb (type c) t then Z.abs (gasChange c) else 0) + sumAbs t cs
  end.

(** [Number.MAX_SAFE_INTEGER]: up to it, a number of the language holds
    every integer exactly and prints its decimal digits. *)
Definition MAX_SAFE_INTEGER : Z := 2 ^ 53 - 1.

(** The order of a list sorted by decreasing key. *)
Definition descending {A : Type} (key : A -> Z) (a b : A) : Prop := key a >= key b.

Definition absGasChange (c : change) : Z := Z.abs (gasChange c).

(** The percentage formatting used where a concrete one is wanted: the
    quotient in hundredths of a percent, truncated. *)
Definition percentTruncated (oldVal newVal : Z) : jsstring :=
  let h := Z.quot ((newVal - oldVal) * 10000) oldVal in
  (if h <? 0 then lit "-" else [])
    ++ toString (Z.abs h / 100) ++ lit "."
    ++ toString (Z.abs h mod 100 / 10) ++ toString (Z.abs h mod 10).

Definition sampleChange (t : changeType) (name : string) (old new : Z) : change :=
  Change t (lit "Token") (lit name) (Some old) new (new - old).

(** [Matches r p c q d]: the expression [r] can take the subject from
    position [p] to position [q], turning the captures [c] into [d]. *)
Inductive Matches : regex -> position -> captures -> position -> captures -> Prop :=
| M_Chr f b x xs c :
    f x = true -> Matches (Chr f) (Pos b (x :: xs)) c (Pos (Some x) xs) c
| M_Seq r1 r2 p c p1 c1 p2 c2 :
    Matches r1 p c p1 c1 -> Matches r2 p1 c1 p2 c2 ->
    Matches (Seq r1 r2) p c p2 c2
| M_Star_stop g r p c :
    Matches (Star g r) p c p c
| M_Star_step g r p c p1 c1 p2 c2 :
    Matches r p c p1 c1 -> (length (rest p1) < length (rest p))%nat ->
    Matches (Star g r) p1 c1 p2 c2 ->
    Matches (Star g r) p c p2 c2
| M_Group n r p c p1 c1 :
    Matches r p c p1 c1 -> Matches (Group n r) p c p1 ((n, between p p1) :: c1)
| M_Bol s c :
    Matches Bol (Pos None s) c (Pos None s) c
| M_Eol b c :
    Matches Eol (Pos b []) c (Pos b []) c
| M_NotWordBoundary p c :
    isWordAt (before p) = isWordAt (hd_error (rest p)) ->
    Matches NotWordBoundary p c p c
| M_Look_ahead r p c p1 c1 :
    Matches r p c p1 c1 -> Matches (Look true r) p c p c1
| M_Look_not r p c :
    Matches (Look false r) p c p c.

Definition sound (m : position -> captures -> continuation -> outcome) (r : regex) : Prop :=
  forall p c k res,
    m p c k = Some res ->
    exists q d, Matches r p c q d /\ k q d = Some res.

Definition startsWithSign (line : jsstring) : bool :=
  match line with
  | c :: _ => oneOf "+-" c
  | [] => false
  end.

(** The shape of a data line as the description has it, for a line without
    sign: contract name, colon, function name, the call marker, any text,
    and an integer at the end of the line. *)
Definition unsignedDataLineRe : regex := Seq Bol dataLineRe.

(** The row of a record whose "Before" cell reads [New]. *)
Definition rowWithoutBaseline (c : change) : jsstring :=
  lit "| " ++ contract c ++ lit " | " ++ function c ++ lit "() | "
    ++ lit "New" ++ lit " | " ++ formatGasValue (newGas c) ++ lit " | "
    ++ ((if changeType_eqb (type c) improvement then green else red)
          ++ lit " " ++ (if gasChange c >? 0 then lit "+" else [])
          ++ formatGasValue (gasChange c))
    ++ lit " |" ++ [LF].

Definition withoutBaseline (c : change) : change :=
  {| type := type c; contract := contract c; function := function c;
     oldGas := None; newGas := newGas c; gasChange := gasChange c |}.

(** The digits from the right, in groups of three with a comma between
    two groups. *)
Fixpoint groupsOfThree (reversed : jsstring) : jsstring :=
  match reversed with
  | a :: b :: c :: more =>
      match more with
      | [] => reversed
      | _ :: _ => a :: b :: c :: 44%N :: groupsOfThree more
      end
  | _ => reversed
  end.

Definition groupedFromRight (digits : jsstring) : jsstring :=
  rev (groupsOfThree (rev digits)).

(** [n] is a multiple of three. *)
Fixpoint multipleOfThree (n : nat) : bool :=
  match n with
  | O => true
  | S (S (S n')) => multipleOfThree n'
  | _ => false
  end.

(** A comma goes before a suffix of the digits whose length is a positive
    multiple of three. *)
Definition sepBefore (s : jsstring) : bool :=
  match s with [] => false | _ :: _ => multipleOfThree (length s) end.

(** The matcher found a match. *)
Definition succeeds (o : outcome) : bool :=
  match o with Some _ => true | None => false end.

(** The continuation of the groups of three digits: [(?!\d)]. *)
Definition endOfDigits : continuation :=
  fun p c => run (Look false (Chr isDigit)) p c (fun p' c' => Some (p', c')).

(** (\d{3})+(?!\d) *)
Definition groupsThenEnd : regex :=
  Seq (Plus true (Group 1 threeDigits)) (Look false (Chr isDigit)).

(** The digits, with a comma before every suffix whose length is a positive
    multiple of three. *)
Fixpoint spaced (s : jsstring) : jsstring :=
  match s with
  | [] => []
  | x :: xs => x :: (if sepBefore xs then [44%N] else []) ++ spaced xs
  end.

(** The string without its commas. *)
Definition stripCommas (s : jsstring) : jsstring :=
  filter (fun c => negb (c =? 44)%N) s.

(** The commit as the footer shows it: the first seven code units of the
    SHA, or a placeholder where there is none. *)
Definition shownSha (fullCommitSha : jsstring) : jsstring :=
  if truthy_str fullCommitSha then firstn 7 fullCommitSha else lit "unknown".

(** The PR information that [generateReportFromFile] takes from the
    environment. *)
Definition prInfoOfEnv (w : world) : prInfo :=
  {| baseBranch := Some (orDefault (env w "BASE_BRANCH") (lit "main"));
     headBranch := Some (orDefault (env w "HEAD_BRANCH") (lit "feature"));
     commitSha := env w "HEAD_SHA" |}.

(** [path.join] on a directory and a plain file name, the case the
    examples need. *)
Definition joinPlain (dir name : jsstring) : jsstring := dir ++ lit "/" ++ name.

Definition sampleFiles : files :=
  fun p => if jsstring_eqb p (lit "/work/gas-diff.txt")
           then Some (lit "+Token:transfer() gas 1000 -> 1200") else None.

Definition sampleWorkspace : world :=
  World (fun k => if String.eqb k "GITHUB_WORKSPACE" then Some (lit "/work") else None)
        (lit "Mon, 02 Nov 2026 08:00:00 GMT").

(** The shape of a line that the change expression takes: a sign, a
    contract name without colon, a colon, a function name without opening
    parenthesis, the call marker, text within the line, the digits of the
    new gas, and white space up to the end. *)
Definition lineShape (line : jsstring) (sign : N)
    (contract func text digits space : jsstring) : Prop :=
  line = sign :: contract ++ lit ":" ++ func ++ lit "()" ++ text ++ digits ++ space /\
  oneOf "+-" sign = true /\
  contract <> [] /\ forallb (noneOf ":") contract = true /\
  func <> [] /\ forallb (noneOf "(") func = true /\
  forallb dot text = true /\
  digits <> [] /\ forallb isDigit digits = true /\
  forallb isWhiteSpace space = true.

(** The type that goes with a sign. *)
Definition typeOfSign (sign : N) : changeType :=
  if (sign =? 43)%N then regression else improvement.

(** The code unit before the position reached by going through [taken]. *)
Definition beforeAfter (b : option N) (taken : jsstring) : option N :=
  fold_left (fun _ x => Some x) taken b.

(** Expressions without lookahead. *)
Fixpoint lookFree (r : regex) : bool :=
  match r with
  | Seq r1 r2 => lookFree r1 && lookFree r2
  | Star _ r1 => lookFree r1
  | Group _ r1 => lookFree r1
  | Look _ _ => false
  | Chr _ | Bol | Eol | NotWordBoundary => true
  end.

Definition startsWithDigit (s : jsstring) : bool :=
  match s with
  | c :: _ => isDigit c
  | [] => false
  end.


(** The line ends with a closing parenthesis. *)
Definition endsWithCloseParen (line : jsstring) : bool :=
  match rev line with
  | c :: _ => (c =? 41)%N
  | [] => false
  end.

(** A data file as the workflow writes it. *)
Definition sampleDataFiles : files :=
  fun p => if jsstring_eqb p (lit "/work/pr-data.txt")
           then Some (lit "PR_NUMBER=42
") else None.

(** The author of the prior comment as the description has it: an account
    whose type or login marks it as a bot.  The type of a bot is [Bot]; the
    login of a bot holds [[bot]], as [github-actions[bot]] does. *)
Definition marksAsBot (a : WorkflowUtils.account) : bool :=
  match WorkflowUtils.type a with
  | Some t => jsstring_eqb t (lit "Bot")
  | None => false
  end
  || includes (WorkflowUtils.login a) (lit "[bot]").

(** The prior comment of the bot: written by a bot, and holding the
    marker. *)
Definition botCommentWith (commentMarker : jsstring) (c : WorkflowUtils.comment) : bool :=
  marksAsBot (WorkflowUtils.user c) && includes (WorkflowUtils.body c) commentMarker.

(** Comments and an account for the examples. *)
Definition sampleAlice : WorkflowUtils.comment :=
  WorkflowUtils.Comment 7 (WorkflowUtils.Account (lit "alice") (Some (lit "User")))
    (lit "<!-- gas --> looks good").

Definition sampleOldReport : WorkflowUtils.comment :=
  WorkflowUtils.Comment 9 (WorkflowUtils.Account (lit "github-actions[bot]") None)
    (lit "<!-- gas --> old report").

Definition sampleActor : WorkflowUtils.account :=
  WorkflowUtils.Account (lit "github-actions[bot]") (Some (lit "Bot")).

(** * Properties *)

(** ** The parser and the formatter on small inputs *)

Example parse_signed_plain :
  parseGasDiff (lit "+Token:transfer() gas 1000 -> 1200") =
  [ Change regression (lit "Token") (lit "transfer") (Some 1000) 1200 200 ].
Proof. vm_compute. reflexivity. Qed.

Example parse_contract_and_function_are_trimmed :
  parseGasDiff (lit "-A b : foo bar () x 12 34 -> 5   ") =
  [ Change improvement (lit "A b") (lit "foo bar") (Some 34) 5 (-29) ].
Proof. vm_compute. reflexivity. Qed.

Example parse_without_arrow :
  parseGasDiff (lit "-X:y() z 007") =
  [ Change improvement (lit "X") (lit "y") None 7 7 ].
Proof. vm_compute. reflexivity. Qed.

Example format_millions : formatGasValue 1234567 = lit "1,234,567".
Proof. vm_compute. reflexivity. Qed.

Example format_hundreds : formatGasValue 999 = lit "999".
Proof. vm_compute. reflexivity. Qed.

Example format_negative : formatGasValue (-1234) = lit "-1,234".
Proof. vm_compute. reflexivity. Qed.

(** ** The parser on the documented line shape *)

(** C1.  The line [+Token:transfer() (gas: 1000 -> 1200)] ends with a
    closing parenthesis, and the expression of [parseGasDiff] wants the last
    integer to be followed by white space only up to the end of the line:
    the line is skipped and no record is produced. *)
Theorem parseGasDiff_parenthesised_line_skipped :
  parseGasDiff (lit "+Token:transfer() (gas: 1000 -> 1200)") = [].
Proof. vm_compute. reflexivity. Qed.

(** ** The summary *)

Lemma fold_sum_abs_shift (l : list change) (acc : Z) :
  fold_left (fun sum c => sum + Z.abs (gasChange c)) l acc =
  acc + fold_left (fun sum c => sum + Z.abs (gasChange c)) l 0.
Proof.
  revert acc. induction l as [|c l IH]; intros acc; simpl.
  - lia.
  - rewrite IH. rewrite (IH (Z.abs (gasChange c))). lia.
Qed.

Lemma fold_filter_sumAbs (t : changeType) (changes : list change) :
  fold_left (fun sum c => sum + Z.abs (gasChange c))
            (filter (fun c => changeType_eqb (type c) t) changes) 0 =
  sumAbs t changes.
Proof.
  induction changes as [|c cs IH]; simpl; [reflexivity|].
  destruct (changeType_eqb (type c) t); simpl.
  - rewrite fold_sum_abs_shift, IH. reflexivity.
  - exact IH.
Qed.

(** C6.  [generateSummary] adds up the absolute gas changes of the
    improvements and of the regressions, takes their difference (regressions
    minus improvements) as the net change, and picks icon and text by the
    sign of the net change. *)
Theorem generateSummary_totals_and_indicator (changes : list change) :
  let s := generateSummary changes in
  totalImprovement s = sumAbs improvement changes /\
  totalRegression s = sumAbs regression changes /\
  netChange s = totalRegression s - totalImprovement s /\
  (netIcon s, netText s) =
    match netChange s ?= 0 with
    | Gt => (red, lit "+" ++ formatGasValue (netChange s) ++ lit " gas")
    | Lt => (green, formatGasValue (netChange s) ++ lit " gas")
    | Eq => (white, lit "No change")
    end.
Proof.
  intros s. subst s. unfold generateSummary.
  rewrite !fold_filter_sumAbs.
  set (net := sumAbs regression changes - sumAbs improvement changes).
  destruct (net >? 0) eqn:Hpos.
  - cbn [totalImprovement totalRegression netChange netIcon netText].
    fold net. repeat split; try reflexivity.
    apply Z.gtb_lt, Z.lt_gt in Hpos. unfold Z.gt in Hpos.
    rewrite Hpos. reflexivity.
  - destruct (net <? 0) eqn:Hneg.
    + cbn [totalImprovement totalRegression netChange netIcon netText].
      fold net. repeat split; try reflexivity.
      apply Z.ltb_lt in Hneg. unfold Z.lt in Hneg. rewrite Hneg. reflexivity.
    + cbn [totalImprovement totalRegression netChange netIcon netText].
      fold net. repeat split; try reflexivity.
      assert (Heq : net = 0).
      { apply Z.ltb_ge in Hneg. rewrite Z.gtb_ltb in Hpos.
        apply Z.ltb_ge in Hpos. lia. }
      rewrite Heq. reflexivity.
Qed.

(** ** The table: order of the rows *)

Section SortFacts.
Context {A : Type} (key : A -> Z) (comparefn : A -> A -> Z).
Hypothesis comparefn_key : forall a b, comparefn a b = key b - key a.

Lemma insert_perm (x : A) (l : list A) :
  Permutation (x :: l) (insert comparefn x l).
Proof.
  induction l as [|y l IH]; simpl; [apply Permutation_refl|].
  destruct (comparefn x y <=? 0).
  - apply Permutation_refl.
  - eapply perm_trans; [apply perm_swap|]. apply perm_skip, IH.
Qed.

Lemma sort_perm (l : list A) : Permutation l (sort comparefn l).
Proof.
  induction l as [|x l IH]; simpl; [constructor|].
  eapply perm_trans; [apply perm_skip, IH|]. apply insert_perm.
Qed.

Lemma sort_length (l : list A) : length (sort comparefn l) = length l.
Proof. symmetry. apply Permutation_length, sort_perm. Qed.

Lemma insert_Forall (P : A -> Prop) (x : A) (l : list A) :
  P x -> Forall P l -> Forall P (insert comparefn x l).
Proof.
  intros Hx Hl. eapply Permutation_Forall; [apply insert_perm|].
  constructor; assumption.
Qed.

Lemma insert_sorted (x : A) (l : list A) :
  StronglySorted (descending key) l -> StronglySorted (descending key) (insert comparefn x l).
Proof.
  induction 1 as [|y l Hl IH Hy]; simpl.
  - repeat constructor.
  - destruct (comparefn x y <=? 0) eqn:Hc.
    + rewrite comparefn_key in Hc. apply Z.leb_le in Hc.
      constructor; [constructor; assumption|].
      constructor; [unfold descending; lia|].
      eapply Forall_impl; [|exact Hy]. unfold descending. intros; lia.
    + rewrite comparefn_key in Hc. apply Z.leb_gt in Hc.
      constructor; [exact IH|].
      apply insert_Forall; [unfold descending; lia|exact Hy].
Qed.

Lemma sort_sorted (l : list A) : StronglySorted (descending key) (sort comparefn l).
Proof.
  induction l as [|x l IH]; simpl; [constructor|]. apply insert_sorted, IH.
Qed.

(** Stability: among the elements of one key, the order is the one of the
    input. *)
Lemma insert_stable (m : Z) (x : A) (l : list A) :
  filter (fun a => key a =? m) (insert comparefn x l) =
  filter (fun a => key a =? m) (x :: l).
Proof.
  induction l as [|y l IH]; [reflexivity|].
  cbn [insert]. destruct (comparefn x y <=? 0) eqn:Hc; [reflexivity|].
  rewrite comparefn_key in Hc. apply Z.leb_gt in Hc.
  cbn [filter] in *. rewrite IH.
  destruct (key x =? m) eqn:Hx; destruct (key y =? m) eqn:Hy; try reflexivity.
  apply Z.eqb_eq in Hx, Hy. lia.
Qed.

Lemma sort_stable (m : Z) (l : list A) :
  filter (fun a => key a =? m) (sort comparefn l) =
  filter (fun a => key a =? m) l.
Proof.
  induction l as [|x l IH]; [reflexivity|].
  cbn [sort]. rewrite insert_stable. cbn [filter]. rewrite IH. reflexivity.
Qed.
End SortFacts.

Lemma byAbsGasChange_key (a b : change) :
  byAbsGasChange a b = absGasChange b - absGasChange a.
Proof. reflexivity. Qed.

Lemma fold_rows (pct : Z -> Z -> jsstring) (l : list change) (table : jsstring) :
  fold_left (fun table change => table ++ renderRow pct change) l table =
  table ++ concat (map (renderRow pct) l).
Proof.
  revert table. induction l as [|c l IH]; intros table; simpl.
  - symmetry. apply app_nil_r.
  - rewrite IH, <- app_assoc. reflexivity.
Qed.

Lemma generateMarkdownTable_nonempty (pct : Z -> Z -> jsstring)
    (changes : list change) (limit : option Z) :
  changes <> [] ->
  generateMarkdownTable pct changes limit =
  (tableHeader
     ++ concat (map (renderRow pct)
                    (slice0 (sort byAbsGasChange changes) (limitOrDefault limit)))
     ++ (if Z.of_nat (length changes) >? limitOrDefault limit
         then truncationNote (limitOrDefault limit) (length changes) else []),
   sort byAbsGasChange changes).
Proof.
  intros Hne. unfold generateMarkdownTable.
  destruct changes as [|c cs]; [contradiction|].
  cbn [length Nat.eqb]. rewrite fold_rows.
  rewrite sort_length. cbn [length].
  destruct (Z.of_nat (S (length cs)) >? limitOrDefault limit).
  - rewrite <- app_assoc. reflexivity.
  - rewrite app_nil_r. reflexivity.
Qed.

(** C4.  The rows of a non-empty table are the records in descending order
    of the absolute gas change, records of equal absolute gas change in the
    order of the input; the table shows the first [limit] of them. *)
Theorem generateMarkdownTable_rows_sorted_stable (pct : Z -> Z -> jsstring)
    (changes : list change) (limit : option Z) :
  changes <> [] ->
  exists sorted : list change,
    Permutation changes sorted /\
    StronglySorted (fun a b => Z.abs (gasChange a) >= Z.abs (gasChange b)) sorted /\
    (forall m, filter (fun c => Z.abs (gasChange c) =? m) sorted =
               filter (fun c => Z.abs (gasChange c) =? m) changes) /\
    fst (generateMarkdownTable pct changes limit) =
      tableHeader
        ++ concat (map (renderRow pct) (slice0 sorted (limitOrDefault limit)))
        ++ (if Z.of_nat (length changes) >? limitOrDefault limit
            then truncationNote (limitOrDefault limit) (length changes) else []).
Proof.
  intros Hne. exists (sort byAbsGasChange changes).
  split; [apply sort_perm|].
  split; [apply (sort_sorted absGasChange byAbsGasChange byAbsGasChange_key)|].
  split; [intros m; apply (sort_stable absGasChange byAbsGasChange byAbsGasChange_key)|].
  rewrite generateMarkdownTable_nonempty by assumption. reflexivity.
Qed.

Lemma generateMarkdownTable_rows_sorted_stable_witness :
  exists sorted : list change,
    Permutation
      [sampleChange regression "a" 100 150; sampleChange improvement "b" 900 400;
       sampleChange regression "c" 100 110] sorted /\
    StronglySorted (fun a b => Z.abs (gasChange a) >= Z.abs (gasChange b)) sorted /\
    (forall m, filter (fun c => Z.abs (gasChange c) =? m) sorted =
               filter (fun c => Z.abs (gasChange c) =? m)
                 [sampleChange regression "a" 100 150; sampleChange improvement "b" 900 400;
                  sampleChange regression "c" 100 110]) /\
    fst (generateMarkdownTable percentTruncated
           [sampleChange regression "a" 100 150; sampleChange improvement "b" 900 400;
            sampleChange regression "c" 100 110] None) =
      tableHeader ++ concat (map (renderRow percentTruncated) (slice0 sorted 20)) ++ [].
Proof.
  apply (generateMarkdownTable_rows_sorted_stable percentTruncated
           [sampleChange regression "a" 100 150; sampleChange improvement "b" 900 400;
            sampleChange regression "c" 100 110] None).
  discriminate.
Defined.

(** Records with absolute gas changes 50, 500, 10 give the rows in the
    order 500, 50, 10. *)
Example rows_50_500_10 (pct : Z -> Z -> jsstring) (a b c : change) :
  map absGasChange [a; b; c] = [50; 500; 10] ->
  fst (generateMarkdownTable pct [a; b; c] None) =
  tableHeader ++ renderRow pct b ++ renderRow pct a ++ renderRow pct c.
Proof.
  intros H. injection H as Ha Hb Hc.
  rewrite generateMarkdownTable_nonempty by discriminate.
  cbn [sort insert].
  rewrite (byAbsGasChange_key b c), Hb, Hc. change (10 - 500 <=? 0) with true.
  cbn iota. cbn [insert].
  rewrite (byAbsGasChange_key a b), Ha, Hb. change (500 - 50 <=? 0) with false.
  cbn iota. cbn [insert].
  rewrite (byAbsGasChange_key a c), Ha, Hc. change (10 - 50 <=? 0) with true.
  cbn iota.
  change (slice0 [b; a; c] (limitOrDefault None)) with [b; a; c].
  change (Z.of_nat (length [a; b; c]) >? limitOrDefault None) with false.
  cbn [map concat fst]. rewrite !app_nil_r. reflexivity.
Qed.

Example rows_ties_keep_input_order :
  map function
    (snd (generateMarkdownTable percentTruncated
            [sampleChange regression "a" 100 150; sampleChange improvement "b" 150 100;
             sampleChange regression "c" 100 300; sampleChange improvement "d" 100 50]
            None)) =
  [lit "c"; lit "a"; lit "b"; lit "d"].
Proof. vm_compute. reflexivity. Qed.

(** ** The table: truncation *)





(** The same 25 records with the limit 25: all the rows, and no note. *)
Example unbounded_table_has_no_note :
  fst (generateMarkdownTable percentTruncated
         (repeat (sampleChange regression "f" 100 150) 25) (Some 25)) =
  tableHeader
    ++ concat (repeat (renderRow percentTruncated (sampleChange regression "f" 100 150)) 25).
Proof. vm_compute. reflexivity. Qed.

(** ** The report: what it depends on *)

Lemma orDefault_some_truthy (s d : jsstring) : s <> [] -> orDefault (Some s) d = s.
Proof. destruct s; [contradiction|reflexivity]. Qed.

Lemma peel_head (a : jsstring) (R F : world -> jsstring) :
  (exists b, forall w, R w = b ++ F w) ->
  exists b, forall w, a ++ R w = b ++ F w.
Proof.
  intros (b & Hb). exists (a ++ b). intros w. rewrite Hb. apply app_assoc.
Qed.

Lemma peel_done (F : world -> jsstring) : exists b, forall w, F w = b ++ F w.
Proof. exists []. reflexivity. Qed.

Lemma choose_sha (E : world -> jsstring) (shortSha fullCommitSha : jsstring) :
  (exists body, forall w, E w = body ++ generateFooter w shortSha fullCommitSha) ->
  exists body s f, forall w, E w = body ++ generateFooter w s f.
Proof. intros (body & H). exists body, shortSha, fullCommitSha. exact H. Qed.

(** The footer closes the report, and nothing before it reads the
    surroundings. *)
Lemma generateFullReport_footer_last (pct : Z -> Z -> jsstring)
    (diffOutput : jsstring) (prInfo : prInfo) :
  exists (body shortSha fullCommitSha : jsstring),
    forall w, generateFullReport pct w diffOutput prInfo =
              body ++ generateFooter w shortSha fullCommitSha.
Proof.
  unfold generateFullReport, generateNoChangesReport.
  set (full := orDefault (commitSha prInfo) []).
  set (short := if truthy_str full then substring0 7 full else []).
  apply (choose_sha _ short full).
  destruct (negb (truthy_str diffOutput) || (length (trim diffOutput) =? 0)%nat);
    [|destruct (length (parseGasDiff diffOutput) =? 0)%nat;
      [|destruct (generateMarkdownTable pct (parseGasDiff diffOutput) None)
          as [table changes]]];
    repeat first [ apply (peel_done (fun w => generateFooter w short full))
                 | apply (peel_head _ _ (fun w => generateFooter w short full)) ].
Qed.

(** C8.  The report depends on the diff, on the PR information, on the
    repository identifier of the environment and on the clock, and on
    nothing else of the surroundings: with the same clock two calls return
    the same string, and with different clocks the two strings differ in
    the time stamp of the last line only. *)
Theorem generateFullReport_deterministic (pct : Z -> Z -> jsstring)
    (env1 env2 : string -> option jsstring) (diffOutput : jsstring) (prInfo : prInfo) :
  env1 "GITHUB_REPOSITORY"%string = env2 "GITHUB_REPOSITORY"%string ->
  (forall now : jsstring,
      generateFullReport pct (World env1 now) diffOutput prInfo =
      generateFullReport pct (World env2 now) diffOutput prInfo) /\
  exists before after : jsstring,
    forall now1 now2 : jsstring,
      generateFullReport pct (World env1 now1) diffOutput prInfo =
        before ++ lit "*Last updated: " ++ now1 ++ lit "* for commit " ++ after /\
      generateFullReport pct (World env2 now2) diffOutput prInfo =
        before ++ lit "*Last updated: " ++ now2 ++ lit "* for commit " ++ after.
Proof.
  intros Hrepo.
  destruct (generateFullReport_footer_last pct diffOutput prInfo)
    as (body & short & full & Hbody).
  assert (Hfooter : forall now,
             generateFooter (World env2 now) short full =
             generateFooter (World env1 now) short full).
  { intros. unfold generateFooter. cbn [env utcNow]. rewrite Hrepo. reflexivity. }
  split.
  - intros now. rewrite !Hbody, Hfooter. reflexivity.
  - exists body. eexists. intros now1 now2.
    rewrite !Hbody, Hfooter. unfold generateFooter. cbn [env utcNow].
    split; reflexivity.
Qed.

Lemma generateFullReport_deterministic_witness :
  generateFullReport percentTruncated
    (World (fun _ => None) (lit "Mon, 02 Nov 2026 08:00:00 GMT"))
    (lit "+Token:transfer() gas 1000 -> 1200") (PrInfo None None None) =
  generateFullReport percentTruncated
    (World (fun k => if String.eqb k "HEAD_SHA" then Some (lit "abc") else None)
           (lit "Mon, 02 Nov 2026 08:00:00 GMT"))
    (lit "+Token:transfer() gas 1000 -> 1200") (PrInfo None None None).
Proof.
  destruct (generateFullReport_deterministic percentTruncated
              (fun _ => None)
              (fun k => if String.eqb k "HEAD_SHA" then Some (lit "abc") else None)
              (lit "+Token:transfer() gas 1000 -> 1200") (PrInfo None None None))
    as [Hsame _].
  - reflexivity.
  - apply Hsame.
Defined.

(** ** What a successful run of the matcher went through *)

Lemma star_loop_sound (r : regex) (greedy : bool) :
  sound (run r) r ->
  forall k fuel p c res,
    star_loop (run r) greedy k fuel p c = Some res ->
    exists q d, Matches (Star greedy r) p c q d /\ k q d = Some res.
Proof.
  intros Hbody k fuel. induction fuel as [|fuel IH]; intros p c res Hrun.
  - exists p, c. split; [constructor|exact Hrun].
  - cbn [star_loop] in Hrun.
    assert (Hagain : forall res',
      run r p c (fun p' c' =>
        if (length (rest p') <? length (rest p))%nat
        then star_loop (run r) greedy k fuel p' c' else None) = Some res' ->
      exists q d, Matches (Star greedy r) p c q d /\ k q d = Some res').
    { intros res' H. apply Hbody in H. destruct H as (p1 & c1 & Hm & Hk).
      destruct (length (rest p1) <? length (rest p))%nat eqn:Hlt; [|discriminate].
      apply Nat.ltb_lt in Hlt. apply IH in Hk. destruct Hk as (q & d & Hstar & Hk).
      exists q, d. split; [|exact Hk]. eapply M_Star_step; eassumption. }
    assert (Hstop : forall res', k p c = Some res' ->
      exists q d, Matches (Star greedy r) p c q d /\ k q d = Some res').
    { intros res' H. exists p, c. split; [constructor|exact H]. }
    destruct greedy; unfold orElse in Hrun.
    + destruct (run r p c _) eqn:Ha in Hrun.
      * injection Hrun as <-. apply Hagain. exact Ha.
      * apply Hstop. exact Hrun.
    + destruct (k p c) eqn:Hk in Hrun.
      * injection Hrun as <-. apply Hstop. exact Hk.
      * apply Hagain. exact Hrun.
Qed.

Lemma run_sound (r : regex) : sound (run r) r.
Proof.
  induction r as [f|r1 IH1 r2 IH2|g r IH|n r IH| | | |positive r IH];
    intros p c k res Hrun; cbn [run] in Hrun.
  - destruct p as [b [|x xs]]; cbn [rest] in Hrun; [discriminate|].
    destruct (f x) eqn:Hf; [|discriminate].
    eexists _, _. split; [constructor; exact Hf|exact Hrun].
  - apply IH1 in Hrun. destruct Hrun as (p1 & c1 & H1 & Hrun).
    apply IH2 in Hrun. destruct Hrun as (p2 & c2 & H2 & Hrun).
    exists p2, c2. split; [econstructor; eassumption|exact Hrun].
  - eapply star_loop_sound; eassumption.
  - apply IH in Hrun. destruct Hrun as (p1 & c1 & H1 & Hrun).
    eexists _, _. split; [constructor; exact H1|exact Hrun].
  - destruct p as [[b|] s]; cbn [before] in Hrun; [discriminate|].
    eexists _, _. split; [constructor|exact Hrun].
  - destruct p as [b [|x xs]]; cbn [rest] in Hrun; [|discriminate].
    eexists _, _. split; [constructor|exact Hrun].
  - destruct (Bool.eqb _ _) eqn:He; [|discriminate].
    apply Bool.eqb_prop in He.
    eexists _, _. split; [constructor; exact He|exact Hrun].
  - destruct (run r p c _) as [[q d]|] eqn:Hin.
    + destruct positive; [|discriminate].
      apply IH in Hin. destruct Hin as (q' & d' & Hm & Heq).
      injection Heq as -> ->.
      exists p, d. split; [econstructor; exact Hm|exact Hrun].
    + destruct positive; [discriminate|].
      exists p, c. split; [constructor|exact Hrun].
Qed.

Lemma matchAt_sound (r : regex) (p q : position) (d : captures) :
  matchAt r p = Some (q, d) -> Matches r p [] q d.
Proof.
  unfold matchAt. intros H. apply run_sound in H.
  destruct H as (q' & d' & Hm & Heq). injection Heq as -> ->. exact Hm.
Qed.

Lemma exec_from_sound (r : regex) (s : jsstring) :
  forall prev d,
    exec_from r prev s = Some d ->
    exists p q, Matches r p [] q d /\
                (before p = None -> p = Pos prev s /\ prev = None).
Proof.
  induction s as [|x xs IH]; intros prev d Hexec; cbn [exec_from] in Hexec.
  - destruct (matchAt r (Pos prev [])) as [[q c]|] eqn:Hm; [|discriminate].
    injection Hexec as ->. apply matchAt_sound in Hm.
    exists (Pos prev []), q. split; [exact Hm|].
    cbn [before]. intros ->. split; reflexivity.
  - destruct (matchAt r (Pos prev (x :: xs))) as [[q c]|] eqn:Hm.
    + injection Hexec as ->. apply matchAt_sound in Hm.
      exists (Pos prev (x :: xs)), q. split; [exact Hm|].
      cbn [before]. intros ->. split; reflexivity.
    + apply IH in Hexec. destruct Hexec as (p & q & Hmatch & Hstart).
      exists p, q. split; [exact Hmatch|].
      intros Hnone. destruct (Hstart Hnone) as [_ Habs]. discriminate.
Qed.

Lemma Matches_seq_inv (r1 r2 : regex) (p q : position) (c d : captures) :
  Matches (Seq r1 r2) p c q d ->
  exists p1 c1, Matches r1 p c p1 c1 /\ Matches r2 p1 c1 q d.
Proof. intros H. inversion H; subst. eauto. Qed.

Lemma Matches_group_inv (n : nat) (r : regex) (p q : position) (c d : captures) :
  Matches (Group n r) p c q d ->
  exists c1, Matches r p c q c1 /\ d = (n, between p q) :: c1.
Proof. intros H. inversion H; subst. eauto. Qed.

Lemma Matches_chr_inv (f : N -> bool) (p q : position) (c d : captures) :
  Matches (Chr f) p c q d ->
  exists x, rest p = x :: rest q /\ f x = true /\ d = c.
Proof. intros H. inversion H; subst. cbn [rest]. eauto. Qed.

Lemma Matches_bol_inv (p q : position) (c d : captures) :
  Matches Bol p c q d -> before p = None /\ q = p /\ d = c.
Proof. intros H. inversion H; subst. auto. Qed.

(** Repeating a single code unit leaves the captures alone and moves
    forward only. *)
Lemma Matches_star_chr (g : bool) (f : N -> bool) (p q : position) (c d : captures) :
  Matches (Star g (Chr f)) p c q d ->
  d = c /\ (length (rest q) <= length (rest p))%nat.
Proof.
  intros H. remember (Star g (Chr f)) as r eqn:Hr.
  induction H as [| | |g' r' p c p1 c1 p2 c2 Hbody _ Hlt _ IH| | | | | |];
    try discriminate; injection Hr as -> ->.
  - split; [reflexivity|lia].
  - apply Matches_chr_inv in Hbody. destruct Hbody as (x & _ & _ & ->).
    destruct (IH eq_refl) as [-> Hle]. split; [reflexivity|lia].
Qed.

Lemma Matches_plus_chr (g : bool) (f : N -> bool) (p q : position) (c d : captures) :
  Matches (Plus g (Chr f)) p c q d ->
  d = c /\ (length (rest q) < length (rest p))%nat.
Proof.
  intros H. apply Matches_seq_inv in H. destruct H as (p1 & c1 & Hchr & Hstar).
  apply Matches_chr_inv in Hchr. destruct Hchr as (x & Hrest & _ & ->).
  apply Matches_star_chr in Hstar. destruct Hstar as [-> Hle].
  split; [reflexivity|]. rewrite Hrest. cbn [length]. lia.
Qed.

Lemma between_nonempty (p q : position) :
  (length (rest q) < length (rest p))%nat -> between p q <> [].
Proof.
  unfold between. intros Hlt.
  destruct (rest p) as [|x xs]; cbn [length] in *; [lia|].
  destruct (S (length xs) - length (rest q))%nat eqn:Hd; [lia|]. discriminate.
Qed.

(** The old value that the arrow expression captures is never empty. *)
Lemma oldGasRe_captures (line : jsstring) (oldGasMatch : captures) :
  str_match line oldGasRe = Some oldGasMatch ->
  exists old, group 1 oldGasMatch = Some old /\ old <> [].
Proof.
  unfold str_match. intros H. apply exec_from_sound in H.
  destruct H as (p & q & Hm & _). unfold oldGasRe in Hm.
  apply Matches_seq_inv in Hm. destruct Hm as (p1 & c1 & Hold & Hm).
  apply Matches_group_inv in Hold. destruct Hold as (c0 & Hold & ->).
  apply Matches_plus_chr in Hold. destruct Hold as [-> Hlt].
  apply Matches_seq_inv in Hm. destruct Hm as (p2 & c2 & Hws & Hm).
  apply Matches_star_chr in Hws. destruct Hws as [-> _].
  apply Matches_seq_inv in Hm. destruct Hm as (p3 & c3 & Hdash & Hm).
  apply Matches_chr_inv in Hdash. destruct Hdash as (_ & _ & _ & ->).
  apply Matches_seq_inv in Hm. destruct Hm as (p4 & c4 & Hgt & Hm).
  apply Matches_chr_inv in Hgt. destruct Hgt as (_ & _ & _ & ->).
  apply Matches_seq_inv in Hm. destruct Hm as (p5 & c5 & Hws & Hm).
  apply Matches_star_chr in Hws. destruct Hws as [-> _].
  apply Matches_group_inv in Hm. destruct Hm as (c6 & Hnew & ->).
  apply Matches_plus_chr in Hnew. destruct Hnew as [-> _].
  eexists. split; [reflexivity|]. apply between_nonempty. exact Hlt.
Qed.

(** A line that the change expression matches starts with a sign, which is
    the first capture. *)
Lemma changeRe_captures (line : jsstring) (changeMatch : captures) :
  str_match line changeRe = Some changeMatch ->
  exists sign tail,
    line = sign :: tail /\ oneOf "+-" sign = true /\ captured 1 changeMatch = [sign].
Proof.
  unfold str_match. intros H. apply exec_from_sound in H.
  destruct H as (p & q & Hm & Hstart). unfold changeRe, dataLineRe in Hm.
  apply Matches_seq_inv in Hm. destruct Hm as (p1 & c1 & Hbol & Hm).
  apply Matches_bol_inv in Hbol. destruct Hbol as (Hnone & -> & ->).
  destruct (Hstart Hnone) as [-> _].
  apply Matches_seq_inv in Hm. destruct Hm as (p2 & c2 & Hsign & Hm).
  apply Matches_group_inv in Hsign. destruct Hsign as (c0 & Hsign & ->).
  apply Matches_chr_inv in Hsign. destruct Hsign as (x & Hrest & Hx & ->).
  cbn [rest] in Hrest.
  assert (Hbetween : between (Pos None line) p2 = [x]).
  { unfold between. cbn [rest]. rewrite Hrest. cbn [length].
    replace (S (length (rest p2)) - length (rest p2))%nat with 1%nat by lia.
    reflexivity. }
  rewrite Hbetween in Hm.
  apply Matches_seq_inv in Hm. destruct Hm as (p3 & c3 & Hg & Hm).
  apply Matches_group_inv in Hg. destruct Hg as (c & Hg & ->).
  apply Matches_plus_chr in Hg. destruct Hg as [-> _].
  apply Matches_seq_inv in Hm. destruct Hm as (p4 & c4 & Hc & Hm).
  apply Matches_chr_inv in Hc. destruct Hc as (_ & _ & _ & ->).
  apply Matches_seq_inv in Hm. destruct Hm as (p5 & c5 & Hg & Hm).
  apply Matches_group_inv in Hg. destruct Hg as (c & Hg & ->).
  apply Matches_plus_chr in Hg. destruct Hg as [-> _].
  apply Matches_seq_inv in Hm. destruct Hm as (p6 & c6 & Hc & Hm).
  apply Matches_chr_inv in Hc. destruct Hc as (_ & _ & _ & ->).
  apply Matches_seq_inv in Hm. destruct Hm as (p7 & c7 & Hc & Hm).
  apply Matches_chr_inv in Hc. destruct Hc as (_ & _ & _ & ->).
  apply Matches_seq_inv in Hm. destruct Hm as (p8 & c8 & Hs & Hm).
  apply Matches_star_chr in Hs. destruct Hs as [-> _].
  apply Matches_seq_inv in Hm. destruct Hm as (p9 & c9 & Hg & Hm).
  apply Matches_group_inv in Hg. destruct Hg as (c & Hg & ->).
  apply Matches_plus_chr in Hg. destruct Hg as [-> _].
  apply Matches_seq_inv in Hm. destruct Hm as (p10 & c10 & Hs & Hm).
  apply Matches_star_chr in Hs. destruct Hs as [-> _].
  inversion Hm; subst.
  exists x, (rest p2). repeat split; assumption.
Qed.

(** ** Blank text, blank lines *)

Lemma trimStart_nil_iff (s : jsstring) :
  trimStart s = [] <-> forallb isWhiteSpace s = true.
Proof.
  induction s as [|c s IH]; cbn [trimStart forallb]; [tauto|].
  destruct (isWhiteSpace c); cbn [andb]; [exact IH|].
  split; discriminate.
Qed.

Lemma trimStart_head (s t : jsstring) (x : N) :
  trimStart s = x :: t -> isWhiteSpace x = false.
Proof.
  induction s as [|c s IH]; cbn [trimStart]; [discriminate|].
  destruct (isWhiteSpace c) eqn:Hc; [exact IH|].
  intros H. injection H as <- _. exact Hc.
Qed.

Lemma forallb_rev {A : Type} (f : A -> bool) (l : list A) :
  forallb f (rev l) = forallb f l.
Proof.
  destruct (forallb f l) eqn:H.
  - apply forallb_forall. intros x Hx. apply in_rev in Hx.
    rewrite forallb_forall in H. apply H, Hx.
  - destruct (forallb f (rev l)) eqn:H'; [|reflexivity].
    rewrite forallb_forall in H'.
    assert (Hall : forallb f l = true).
    { apply forallb_forall. intros x Hx. apply H'. apply in_rev in Hx. exact Hx. }
    congruence.
Qed.

Lemma trim_nil_iff (s : jsstring) :
  trim s = [] <-> forallb isWhiteSpace s = true.
Proof.
  unfold trim, trimEnd. rewrite <- trimStart_nil_iff. split.
  - intros H. apply (f_equal (@rev N)) in H. rewrite rev_involutive in H.
    cbn [rev] in H. apply trimStart_nil_iff in H. rewrite forallb_rev in H.
    destruct (trimStart s) as [|x t] eqn:Hs; [reflexivity|].
    apply trimStart_head in Hs. cbn [forallb] in H. rewrite Hs in H. discriminate.
  - intros ->. reflexivity.
Qed.

Lemma split_lines_incl (s : jsstring) :
  forall line x, In line (split_lines s) -> In x line -> In x s.
Proof.
  induction s as [|c s IH]; intros line x Hline Hx; cbn [split_lines] in Hline.
  - destruct Hline as [<-|[]]. exact Hx.
  - destruct (split_lines s) as [|l ls] eqn:Hs.
    + destruct Hline as [<-|[]]. destruct Hx as [<-|[]]. left. reflexivity.
    + destruct (c =? LF)%N.
      * destruct Hline as [<-|Hline]; [destruct Hx|].
        right. eapply IH; eassumption.
      * destruct Hline as [<-|Hline].
        -- destruct Hx as [<-|Hx]; [left; reflexivity|].
           right. eapply IH; [left; reflexivity|exact Hx].
        -- right. eapply IH; [right; exact Hline|exact Hx].
Qed.

Lemma filter_none {A : Type} (f : A -> bool) (l : list A) :
  (forall x, In x l -> f x = false) -> filter f l = [].
Proof.
  induction l as [|a l IH]; intros H; cbn [filter]; [reflexivity|].
  rewrite (H a (or_introl eq_refl)). apply IH. intros x Hx. apply H. right. exact Hx.
Qed.

(** Text made of white space only has no record. *)
Lemma parseGasDiff_blank (diffOutput : jsstring) :
  forallb isWhiteSpace diffOutput = true -> parseGasDiff diffOutput = [].
Proof.
  intros Hblank. unfold parseGasDiff.
  rewrite filter_none; [reflexivity|]. intros line Hline.
  assert (Htrim : trim line = []).
  { apply trim_nil_iff, forallb_forall. intros x Hx.
    rewrite forallb_forall in Hblank. apply Hblank.
    eapply split_lines_incl; eassumption. }
  rewrite Htrim. reflexivity.
Qed.

(** ** Lines without a sign *)

Lemma parseLine_unsigned (line : jsstring) :
  startsWithSign line = false -> parseLine line = [].
Proof.
  intros Hsign. unfold parseLine.
  destruct (str_match line changeRe) as [changeMatch|] eqn:Hm; [|reflexivity].
  apply changeRe_captures in Hm. destruct Hm as (x & tail & -> & Hx & _).
  cbn [startsWithSign] in Hsign. congruence.
Qed.

(** The type of a record follows the sign of its line. *)
Lemma parseLine_type (line : jsstring) (c : change) :
  In c (parseLine line) ->
  exists sign tail,
    line = sign :: tail /\
    (sign = 43%N /\ type c = regression \/ sign = 45%N /\ type c = improvement).
Proof.
  unfold parseLine.
  destruct (str_match line changeRe) as [changeMatch|] eqn:Hm; [|intros []].
  apply changeRe_captures in Hm. destruct Hm as (x & tail & -> & Hx & Hcap).
  rewrite Hcap. intros [<-|[]]. exists x, tail. split; [reflexivity|].
  cbn [type]. unfold oneOf in Hx. cbn in Hx. rewrite orb_false_r in Hx.
  apply orb_true_iff in Hx. destruct Hx as [Hx|Hx]; apply N.eqb_eq in Hx; subst x.
  - left. split; reflexivity.
  - right. split; reflexivity.
Qed.

(** C2, as stated, fails: this line has the shape of a data line and no
    sign, and no improvement comes out of it. *)
Lemma unsigned_line_gives_no_improvement :
  str_match (lit "Token:transfer() gas 1000 -> 1200") unsignedDataLineRe <> None /\
  startsWithSign (lit "Token:transfer() gas 1000 -> 1200") = false /\
  ~ (exists c, In c (parseGasDiff (lit "Token:transfer() gas 1000 -> 1200")) /\
               type c = improvement).
Proof.
  split; [vm_compute; discriminate|]. split; [reflexivity|].
  intros (c & Hin & _). vm_compute in Hin. exact Hin.
Qed.

(** C2, amended.  A line without a leading [+] or [-] gives no record, also
    when the rest of it has the shape of a data line: text in which no line
    starts with a sign parses to the empty list. *)
Theorem parseGasDiff_unsigned_lines_skipped (diffOutput : jsstring) :
  forallb (fun line => negb (startsWithSign line)) (split_lines diffOutput) = true ->
  parseGasDiff diffOutput = [].
Proof.
  intros Hunsigned. unfold parseGasDiff.
  rewrite forallb_forall in Hunsigned.
  induction (split_lines diffOutput) as [|line lines IH]; [reflexivity|].
  cbn [filter].
  assert (Hrest : flat_map parseLine
                    (filter (fun line => truthy_str (trim line)) lines) = []).
  { apply IH. intros l Hl. apply Hunsigned. right. exact Hl. }
  destruct (truthy_str (trim line)); [|exact Hrest].
  cbn [flat_map]. rewrite Hrest, app_nil_r.
  apply parseLine_unsigned.
  specialize (Hunsigned line (or_introl eq_refl)).
  apply negb_true_iff in Hunsigned. exact Hunsigned.
Qed.

Lemma parseGasDiff_unsigned_lines_skipped_witness :
  parseGasDiff (lit "Token:transfer() gas 1000 -> 1200
Token:approve() gas 500 -> 300") = [].
Proof.
  apply parseGasDiff_unsigned_lines_skipped. vm_compute. reflexivity.
Defined.

(** ** A baseline of zero *)

Lemma signed_line_not_blank (line : jsstring) :
  startsWithSign line = true -> truthy_str (trim line) = true.
Proof.
  intros Hsign. destruct (trim line) as [|x t] eqn:Htrim; [|reflexivity].
  apply trim_nil_iff in Htrim. destruct line as [|c tail]; [discriminate|].
  cbn [startsWithSign forallb] in *. apply andb_true_iff in Htrim.
  destruct Htrim as [Hws _]. unfold oneOf in Hsign. cbn in Hsign.
  rewrite orb_false_r in Hsign. apply orb_true_iff in Hsign.
  destruct Hsign as [Hc|Hc]; apply N.eqb_eq in Hc; subst c; discriminate.
Qed.

Lemma parseLine_in_parseGasDiff (diffOutput line : jsstring) (c : change) :
  In line (split_lines diffOutput) -> In c (parseLine line) ->
  In c (parseGasDiff diffOutput).
Proof.
  intros Hline Hc. unfold parseGasDiff. apply in_flat_map.
  exists line. split; [|exact Hc]. apply filter_In. split; [exact Hline|].
  apply signed_line_not_blank.
  destruct (startsWithSign line) eqn:Hs; [reflexivity|].
  rewrite parseLine_unsigned in Hc by exact Hs. destruct Hc.
Qed.

(** C10.  A matching line whose arrow pair has the old value 0 gives a
    record that stores the old gas 0 (not an absent one) and the new gas as
    the gas change; its row in the table reads [New] in the "Before" cell
    and has no percentage, as the row of a record without old gas does. *)
Theorem zero_baseline_stored_but_rendered_as_new (pct : Z -> Z -> jsstring)
    (diffOutput line : jsstring) (changeMatch oldGasMatch : captures) :
  In line (split_lines diffOutput) ->
  str_match line changeRe = Some changeMatch ->
  str_match line oldGasRe = Some oldGasMatch ->
  parseInt (captured 1 oldGasMatch) = 0 ->
  exists c : change,
    parseLine line = [c] /\ In c (parseGasDiff diffOutput) /\
    oldGas c = Some 0 /\
    newGas c = parseInt (captured 4 changeMatch) /\
    gasChange c = newGas c /\
    renderRow pct c = rowWithoutBaseline c /\
    renderRow pct c = renderRow pct (withoutBaseline c) /\
    fst (generateMarkdownTable pct [c] None) = tableHeader ++ rowWithoutBaseline c.
Proof.
  intros Hline Hchange Hold Hzero.
  destruct (oldGasRe_captures line oldGasMatch Hold) as (old & Hgroup & Hne).
  unfold captured in Hzero. rewrite Hgroup in Hzero.
  assert (Htruthy : truthy_str old = true) by (destruct old; [contradiction|reflexivity]).
  assert (Hparse : parseLine line =
    [ {| type := if jsstring_eqb (captured 1 changeMatch) (lit "+")
                 then regression else improvement;
         contract := trim (captured 2 changeMatch);
         function := trim (captured 3 changeMatch);
         oldGas := Some 0;
         newGas := parseInt (captured 4 changeMatch);
         gasChange := parseInt (captured 4 changeMatch) |} ]).
  { unfold parseLine. rewrite Hchange, Hold, Hgroup, Htruthy, Hzero, Z.sub_0_r.
    reflexivity. }
  eexists. split; [exact Hparse|].
  split; [eapply parseLine_in_parseGasDiff;
          [exact Hline|rewrite Hparse; left; reflexivity]|].
  repeat split.
Qed.

Lemma zero_baseline_stored_but_rendered_as_new_witness :
  exists c : change,
    parseLine (lit "+Token:transfer() gas 0 -> 1200") = [c] /\
    In c (parseGasDiff (lit "-Token:approve() gas 500 -> 300
+Token:transfer() gas 0 -> 1200")) /\
    oldGas c = Some 0 /\
    newGas c = 1200 /\
    gasChange c = newGas c /\
    renderRow percentTruncated c = rowWithoutBaseline c /\
    renderRow percentTruncated c = renderRow percentTruncated (withoutBaseline c) /\
    fst (generateMarkdownTable percentTruncated [c] None) =
      tableHeader ++ rowWithoutBaseline c.
Proof.
  edestruct (zero_baseline_stored_but_rendered_as_new percentTruncated
               (lit "-Token:approve() gas 500 -> 300
+Token:transfer() gas 0 -> 1200")
               (lit "+Token:transfer() gas 0 -> 1200"))
    as (c & Hparse & Hin & Hold & Hnew & Hchange & Hrow & Hsame & Htable).
  - vm_compute. right. left. reflexivity.
  - vm_compute. reflexivity.
  - vm_compute. reflexivity.
  - vm_compute. reflexivity.
  - exists c. repeat split; assumption.
Defined.

Example zero_baseline_row :
  map (renderRow percentTruncated)
      (parseGasDiff (lit "+Token:transfer() gas 0 -> 1200")) =
  [ lit "| Token | transfer() | New | 1,200 | " ++ red ++ lit " +1,200 |" ++ [LF] ].
Proof. vm_compute. reflexivity. Qed.

(** ** The report without changes *)

Lemma isPrefixOf_app (m s : jsstring) : isPrefixOf m (m ++ s) = true.
Proof.
  induction m as [|a m IH]; [reflexivity|].
  cbn [isPrefixOf app]. rewrite N.eqb_refl. exact IH.
Qed.

Lemma includes_middle (a m b : jsstring) : includes (a ++ m ++ b) m = true.
Proof.
  induction a as [|x a IH].
  - cbn [app]. destruct (m ++ b) eqn:E; cbn [includes]; rewrite <- E;
      rewrite isPrefixOf_app; reflexivity.
  - cbn [app includes]. rewrite IH. apply orb_true_r.
Qed.

Lemma trim_length_zero (s : jsstring) :
  (length (trim s) =? 0)%nat = true <-> forallb isWhiteSpace s = true.
Proof.
  rewrite <- trim_nil_iff, Nat.eqb_eq. apply length_zero_iff_nil.
Qed.

Lemma report_openings_differ (x y : jsstring) :
  reportTitle ++ lit "Comparing gas usage between `" ++ x <>
  reportTitle ++ lit "No gas usage changes detected between `" ++ y.
Proof.
  intros H. apply app_inv_head in H. vm_compute in H. discriminate.
Qed.

(** The two outcomes of [generateFullReport]. *)
Lemma generateFullReport_cases (pct : Z -> Z -> jsstring) (w : world)
    (diffOutput : jsstring) (prInfo : prInfo) :
  let base := orDefault (baseBranch prInfo) (lit "base") in
  let head := orDefault (headBranch prInfo) (lit "head") in
  let full := orDefault (commitSha prInfo) [] in
  let short := if truthy_str full then substring0 7 full else [] in
  (parseGasDiff diffOutput = [] /\
   generateFullReport pct w diffOutput prInfo =
     generateNoChangesReport w base head short full) \/
  (parseGasDiff diffOutput <> [] /\
   exists x, generateFullReport pct w diffOutput prInfo =
             reportTitle ++ lit "Comparing gas usage between `" ++ x).
Proof.
  intros base head full short. unfold generateFullReport.
  fold base head full short.
  destruct (negb (truthy_str diffOutput) || (length (trim diffOutput) =? 0)%nat)
    eqn:Hblank.
  - left. split; [|reflexivity]. apply parseGasDiff_blank.
    apply orb_true_iff in Hblank. destruct Hblank as [Hempty|Htrim].
    + destruct diffOutput; [reflexivity|discriminate].
    + apply trim_length_zero. exact Htrim.
  - destruct (parseGasDiff diffOutput) as [|c cs] eqn:Hparse.
    + left. split; reflexivity.
    + right. split; [discriminate|]. cbn [length Nat.eqb].
      destruct (generateMarkdownTable pct (c :: cs) None) as [table changes].
      eexists. reflexivity.
Qed.

(** C3.  With branch names that are not empty, [generateFullReport]
    returns the report without changes, which holds the two branch names,
    exactly when the parser finds no record in the diff; that is the case of
    text made of white space only, and of text in which no line is
    recognised. *)
Theorem generateFullReport_no_changes_iff (pct : Z -> Z -> jsstring) (w : world)
    (diffText base head : jsstring) (sha : option jsstring) :
  base <> [] -> head <> [] ->
  let full := orDefault sha [] in
  let short := if truthy_str full then substring0 7 full else [] in
  let noChanges := generateNoChangesReport w base head short full in
  (generateFullReport pct w diffText (PrInfo (Some base) (Some head) sha) = noChanges
   <-> parseGasDiff diffText = []) /\
  includes noChanges base = true /\
  includes noChanges head = true /\
  (forallb isWhiteSpace diffText = true ->
   generateFullReport pct w diffText (PrInfo (Some base) (Some head) sha) = noChanges).
Proof.
  intros Hbase Hhead full short noChanges.
  pose proof (generateFullReport_cases pct w diffText
                (PrInfo (Some base) (Some head) sha)) as Hcases.
  cbn [baseBranch headBranch commitSha] in Hcases.
  rewrite !orDefault_some_truthy in Hcases by assumption.
  fold full short noChanges in Hcases.
  split; [|split; [|split]].
  - destruct Hcases as [[Hnil Heq]|[Hsome (x & Heq)]].
    + split; intros _; assumption.
    + split; [|contradiction].
      intros H. rewrite Heq in H. unfold noChanges, generateNoChangesReport in H.
      apply report_openings_differ in H. destruct H.
  - unfold noChanges, generateNoChangesReport.
    rewrite (app_assoc reportTitle). apply includes_middle.
  - unfold noChanges, generateNoChangesReport.
    rewrite (app_assoc reportTitle), (app_assoc _ base), (app_assoc _ (lit "` and `")).
    apply includes_middle.
  - intros Hblank. destruct Hcases as [[_ Heq]|[Hsome _]]; [exact Heq|].
    exfalso. apply Hsome, parseGasDiff_blank, Hblank.
Qed.

Lemma generateFullReport_no_changes_iff_witness :
  generateFullReport percentTruncated (World (fun _ => None) (lit "now"))
    (lit "gas snapshot: nothing to compare
   ")
    (PrInfo (Some (lit "main")) (Some (lit "feature")) None) =
  generateNoChangesReport (World (fun _ => None) (lit "now"))
    (lit "main") (lit "feature") [] [].
Proof.
  destruct (generateFullReport_no_changes_iff percentTruncated
              (World (fun _ => None) (lit "now"))
              (lit "gas snapshot: nothing to compare
   ")
              (lit "main") (lit "feature") None) as [[_ Hback] _].
  - discriminate.
  - discriminate.
  - apply Hback. vm_compute. reflexivity.
Defined.

(** ** workflow-utils.js: the comment of the bot *)

Lemma jsstring_eqb_eq (a b : jsstring) : jsstring_eqb a b = true <-> a = b.
Proof.
  unfold jsstring_eqb. destruct (list_eq_dec N.eq_dec a b); split;
    intros H; congruence.
Qed.

Lemma updateComment_in_place (l1 l2 : list WorkflowUtils.comment)
    (e : WorkflowUtils.comment) (newBody : jsstring) :
  NoDup (map WorkflowUtils.id (l1 ++ e :: l2)) ->
  WorkflowUtils.updateComment (l1 ++ e :: l2) (WorkflowUtils.id e) newBody =
  l1 ++ WorkflowUtils.Comment (WorkflowUtils.id e) (WorkflowUtils.user e) newBody :: l2.
Proof.
  intros Hnodup. unfold WorkflowUtils.updateComment. rewrite map_app. cbn [map].
  rewrite Z.eqb_refl.
  rewrite map_app in Hnodup. cbn [map] in Hnodup.
  pose proof (NoDup_remove_2 _ _ _ Hnodup) as Hnotin.
  assert (Hkeep : forall l,
            (forall c, In c l -> WorkflowUtils.id c <> WorkflowUtils.id e) ->
            map (fun c => if WorkflowUtils.id c =? WorkflowUtils.id e
                          then WorkflowUtils.Comment (WorkflowUtils.id c)
                                 (WorkflowUtils.user c) newBody
                          else c) l = l).
  { induction l as [|c l IH]; intros Hl; [reflexivity|]. cbn [map].
    destruct (WorkflowUtils.id c =? WorkflowUtils.id e) eqn:Heq.
    - apply Z.eqb_eq in Heq. exfalso. apply (Hl c); [left; reflexivity|exact Heq].
    - f_equal. apply IH. intros c' Hc'. apply Hl. right. exact Hc'. }
  rewrite !Hkeep; [reflexivity| |].
  - intros c Hc Heq. apply Hnotin, in_or_app. right.
    rewrite <- Heq. apply in_map. exact Hc.
  - intros c Hc Heq. apply Hnotin, in_or_app. left.
    rewrite <- Heq. apply in_map. exact Hc.
Qed.

Lemma find_first {A : Type} (f : A -> bool) (l : list A) (x : A) :
  find f l = Some x ->
  exists l1 l2, l = l1 ++ x :: l2 /\ f x = true /\ filter f l1 = [].
Proof.
  induction l as [|a l IH]; cbn [find]; [discriminate|].
  destruct (f a) eqn:Ha.
  - intros H. injection H as <-. exists [], l. repeat split. exact Ha.
  - intros H. destruct (IH H) as (l1 & l2 & -> & Hx & Hnone).
    exists (a :: l1), l2. repeat split; [exact Hx|].
    cbn [filter]. rewrite Ha. exact Hnone.
Qed.

Lemma find_none_filter {A : Type} (f : A -> bool) (l : list A) :
  find f l = None -> filter f l = [].
Proof.
  intros H. apply filter_none. intros x Hx. exact (find_none f l H x Hx).
Qed.

Lemma isBotComment_type_or_login (commentMarker : jsstring)
    (c : WorkflowUtils.comment) :
  WorkflowUtils.isBotComment WorkflowUtils.ByTypeOrLogin commentMarker c =
  botCommentWith commentMarker c.
Proof.
  unfold WorkflowUtils.isBotComment, botCommentWith, marksAsBot,
    WorkflowUtils.isBot, WorkflowUtils.typeIsBot.
  f_equal.
  destruct (jsstring_eqb (WorkflowUtils.login (WorkflowUtils.user c))
              (lit "github-actions[bot]")) eqn:Hlogin.
  - apply jsstring_eqb_eq in Hlogin. rewrite Hlogin.
    replace (includes (lit "github-actions[bot]") (lit "[bot]")) with true
      by (vm_compute; reflexivity).
    rewrite !orb_true_r. reflexivity.
  - rewrite orb_false_r. reflexivity.
Qed.

(** What [postOrUpdateComment] does to the comments of a bot that hold the
    marker, for a revision whose test tells the bots among the authors of
    the comments as the description does: a comment is added exactly when
    there is none; otherwise the first one gets the new body where it
    stands; at most one stays at most one. *)
Lemma postOrUpdateComment_at_most_one_when (rev : WorkflowUtils.revision)
    (actor : WorkflowUtils.account) (comments : list WorkflowUtils.comment)
    (body commentMarker : jsstring) :
  NoDup (map WorkflowUtils.id comments) ->
  (forall c, In c comments ->
     WorkflowUtils.isBotComment rev commentMarker c = botCommentWith commentMarker c) ->
  let prior := botCommentWith commentMarker in
  let after := WorkflowUtils.postOrUpdateComment rev actor comments body commentMarker in
  (length after = S (length comments) <-> filter prior comments = []) /\
  (filter prior comments = [] ->
   after = comments ++ [ WorkflowUtils.Comment (WorkflowUtils.freshId comments) actor body ]) /\
  (filter prior comments <> [] ->
   exists l1 existing l2,
     comments = l1 ++ existing :: l2 /\
     filter prior l1 = [] /\ prior existing = true /\
     after = l1 ++ WorkflowUtils.Comment (WorkflowUtils.id existing)
                     (WorkflowUtils.user existing) body :: l2) /\
  ((length (filter prior comments) <= 1)%nat -> (length (filter prior after) <= 1)%nat).
Proof.
  intros Hnodup Hsame prior after. subst after.
  assert (Hfilter : filter (WorkflowUtils.isBotComment rev commentMarker) comments =
                    filter prior comments).
  { apply filter_ext_in. exact Hsame. }
  unfold WorkflowUtils.postOrUpdateComment, WorkflowUtils.findBotComment,
    WorkflowUtils.listComments.
  destruct (find (WorkflowUtils.isBotComment rev commentMarker) comments)
    as [existing|] eqn:Hfind.
  - destruct (find_first _ comments existing Hfind)
      as (l1 & l2 & Hcomments & Hprior & Hnone).
    subst comments.
    rewrite updateComment_in_place by exact Hnodup.
    rewrite (Hsame existing) in Hprior by (apply in_or_app; right; left; reflexivity).
    assert (Hnone' : filter prior l1 = []).
    { rewrite <- Hnone. symmetry. apply filter_ext_in. intros c Hc.
      apply Hsame, in_or_app. left. exact Hc. }
    assert (Hsome : filter prior (l1 ++ existing :: l2) <> []).
    { rewrite filter_app. cbn [filter]. fold prior in Hprior. rewrite Hprior.
      intros H. apply app_eq_nil in H. destruct H as [_ H]. discriminate. }
    split; [|split; [|split]].
    + rewrite !length_app. cbn [length]. split; [intros H; exfalso; lia|].
      intros H. contradiction.
    + intros H. contradiction.
    + intros _. exists l1, existing, l2. repeat split; assumption.
    + rewrite !filter_app, !length_app. cbn [filter]. fold prior in Hprior.
      rewrite Hprior. cbn [length]. intros Hone.
      match goal with |- context [if ?b then _ else _] => destruct b end;
        cbn [length]; lia.
  - pose proof (find_none_filter _ comments Hfind) as Hnone.
    rewrite Hfilter in Hnone.
    unfold WorkflowUtils.createComment.
    split; [|split; [|split]].
    + rewrite length_app. cbn [length]. split; [intros _; exact Hnone|lia].
    + intros _. reflexivity.
    + intros H. contradiction.
    + intros _. rewrite filter_app, Hnone. cbn [app filter].
      match goal with |- context [if ?b then _ else _] => destruct b end;
        cbn [length]; lia.
Qed.

(** The revision that tells a bot by type or login keeps the comment of the
    bot single, on every PR. *)
Lemma postOrUpdateComment_type_or_login_at_most_one
    (actor : WorkflowUtils.account) (comments : list WorkflowUtils.comment)
    (body commentMarker : jsstring) :
  NoDup (map WorkflowUtils.id comments) ->
  let prior := botCommentWith commentMarker in
  let after := WorkflowUtils.postOrUpdateComment WorkflowUtils.ByTypeOrLogin
                 actor comments body commentMarker in
  (length after = S (length comments) <-> filter prior comments = []) /\
  (filter prior comments <> [] ->
   exists l1 existing l2,
     comments = l1 ++ existing :: l2 /\
     filter prior l1 = [] /\ prior existing = true /\
     after = l1 ++ WorkflowUtils.Comment (WorkflowUtils.id existing)
                     (WorkflowUtils.user existing) body :: l2) /\
  ((length (filter prior comments) <= 1)%nat -> (length (filter prior after) <= 1)%nat).
Proof.
  intros Hnodup.
  destruct (postOrUpdateComment_at_most_one_when WorkflowUtils.ByTypeOrLogin
              actor comments body commentMarker Hnodup)
    as (Hiff & _ & Hupdate & Hcount).
  - intros c _. apply isBotComment_type_or_login.
  - cbv zeta. split; [exact Hiff|]. split; [exact Hupdate|exact Hcount].
Qed.

(** The revision that tells a bot by type keeps the comment of the bot
    single where every author that the login marks as a bot has the type
    [Bot]. *)
Lemma postOrUpdateComment_by_type_at_most_one
    (actor : WorkflowUtils.account) (comments : list WorkflowUtils.comment)
    (body commentMarker : jsstring) :
  NoDup (map WorkflowUtils.id comments) ->
  (forall c, In c comments ->
     marksAsBot (WorkflowUtils.user c) = WorkflowUtils.typeIsBot (WorkflowUtils.user c)) ->
  let prior := botCommentWith commentMarker in
  let after := WorkflowUtils.postOrUpdateComment WorkflowUtils.ByType
                 actor comments body commentMarker in
  (length after = S (length comments) <-> filter prior comments = []) /\
  ((length (filter prior comments) <= 1)%nat -> (length (filter prior after) <= 1)%nat).
Proof.
  intros Hnodup Htype.
  destruct (postOrUpdateComment_at_most_one_when WorkflowUtils.ByType
              actor comments body commentMarker Hnodup)
    as (Hiff & _ & _ & Hcount).
  - intros c Hc. unfold WorkflowUtils.isBotComment, botCommentWith, WorkflowUtils.isBot.
    rewrite (Htype c Hc). reflexivity.
  - cbv zeta. split; [exact Hiff|exact Hcount].
Qed.


(** The other revision, on the same PR: the comment gets the new body. *)
Example type_or_login_updates_the_comment :
  WorkflowUtils.postOrUpdateComment WorkflowUtils.ByTypeOrLogin sampleActor
    [sampleOldReport] (lit "<!-- gas --> new report") (lit "<!-- gas -->") =
  [ WorkflowUtils.Comment 9 (WorkflowUtils.Account (lit "github-actions[bot]") None)
      (lit "<!-- gas --> new report") ].
Proof. vm_compute. reflexivity. Qed.

Example update_in_place :
  WorkflowUtils.postOrUpdateComment WorkflowUtils.ByTypeOrLogin
    (WorkflowUtils.Account (lit "github-actions[bot]") (Some (lit "Bot")))
    [ WorkflowUtils.Comment 7
        (WorkflowUtils.Account (lit "alice") (Some (lit "User")))
        (lit "<!-- gas --> looks good");
      WorkflowUtils.Comment 9
        (WorkflowUtils.Account (lit "github-actions[bot]") None)
        (lit "<!-- gas --> old report") ]
    (lit "<!-- gas --> new report") (lit "<!-- gas -->") =
  [ WorkflowUtils.Comment 7
      (WorkflowUtils.Account (lit "alice") (Some (lit "User")))
      (lit "<!-- gas --> looks good");
    WorkflowUtils.Comment 9
      (WorkflowUtils.Account (lit "github-actions[bot]") None)
      (lit "<!-- gas --> new report") ].
Proof. vm_compute. reflexivity. Qed.

(** The first revision does not know the bot by its login: the same call
    adds a comment. *)
Example by_type_misses_login :
  length
    (WorkflowUtils.postOrUpdateComment WorkflowUtils.ByType
       (WorkflowUtils.Account (lit "github-actions[bot]") None)
       [ WorkflowUtils.Comment 9
           (WorkflowUtils.Account (lit "github-actions[bot]") None)
           (lit "<!-- gas --> old report") ]
       (lit "<!-- gas --> new report") (lit "<!-- gas -->")) = 2%nat.
Proof. vm_compute. reflexivity. Qed.

(** ** Thousands separators *)

Example grouped_1234567 : groupedFromRight (lit "1234567") = lit "1,234,567".
Proof. vm_compute. reflexivity. Qed.

Lemma isDigit_isWordChar (x : N) : isDigit x = true -> isWordChar x = true.
Proof. intros H. unfold isWordChar. rewrite H. rewrite orb_true_r. reflexivity. Qed.

Lemma run_threeDigits (prev : option N) (s : jsstring) (cap : captures) (k : continuation) :
  forallb isDigit s = true ->
  run threeDigits (Pos prev s) cap k =
  match s with
  | _ :: _ :: c :: s' => k (Pos (Some c) s') cap
  | _ => None
  end.
Proof.
  intros Hd. unfold threeDigits. cbn [run rest].
  destruct s as [|a [|b [|c s']]]; try reflexivity;
    cbn [forallb] in Hd; repeat (apply andb_true_iff in Hd; destruct Hd as [?H Hd]).
  - rewrite H. reflexivity.
  - rewrite H, H0. reflexivity.
  - rewrite H, H0, H1. reflexivity.
Qed.

Lemma endOfDigits_digits (prev : option N) (s : jsstring) (cap : captures) :
  forallb isDigit s = true ->
  succeeds (endOfDigits (Pos prev s) cap) = match s with [] => true | _ => false end.
Proof.
  intros Hd. unfold endOfDigits. cbn [run rest].
  destruct s as [|a s]; [reflexivity|].
  cbn [forallb] in Hd. apply andb_true_iff in Hd. destruct Hd as [Ha _].
  rewrite Ha. reflexivity.
Qed.

Lemma star_threeDigits (fuel : nat) :
  forall (s : jsstring) (prev : option N) (cap : captures),
    forallb isDigit s = true -> (length s <= fuel)%nat ->
    succeeds (star_loop (run (Group 1 threeDigits)) true endOfDigits fuel (Pos prev s) cap) =
    multipleOfThree (length s).
Proof.
  induction fuel as [|fuel IH]; intros s prev cap Hd Hlen.
  - destruct s; [|cbn [length] in Hlen; lia].
    cbn [star_loop]. rewrite endOfDigits_digits by exact Hd. reflexivity.
  - cbn [star_loop run]. rewrite run_threeDigits by exact Hd.
    destruct s as [|a [|b [|c s']]].
    + cbn [orElse]. rewrite endOfDigits_digits by exact Hd. reflexivity.
    + cbn [orElse]. rewrite endOfDigits_digits by exact Hd. reflexivity.
    + cbn [orElse]. rewrite endOfDigits_digits by exact Hd. reflexivity.
    + cbn [rest length]. 
      replace (length s' <? S (S (S (length s'))))%nat with true
        by (symmetry; apply Nat.ltb_lt; lia).
      assert (Hd' : forallb isDigit s' = true).
      { cbn [forallb] in Hd. repeat (apply andb_true_iff in Hd; destruct Hd as [_ Hd]). exact Hd. }
      specialize (IH s' (Some c) ((1%nat, between (Pos prev (a :: b :: c :: s')) (Pos (Some c) s')) :: cap) Hd').
      cbn [length] in Hlen. specialize (IH ltac:(lia)).
      cbn [multipleOfThree]. rewrite <- IH.
      destruct (star_loop _ _ _ _ _ _) eqn:E; cbn [orElse]; [reflexivity|].
      rewrite endOfDigits_digits by exact Hd. reflexivity.
Qed.

Lemma multipleOfThree_small (s : jsstring) :
  (length s < 3)%nat -> sepBefore s = false.
Proof.
  destruct s as [|a [|b [|c s']]]; cbn [length]; intros H; try reflexivity. lia.
Qed.

Lemma groupsThenEnd_digits (prev : option N) (s : jsstring) (cap : captures) :
  forallb isDigit s = true ->
  succeeds (run groupsThenEnd (Pos prev s) cap (fun p' c' => Some (p', c'))) = sepBefore s.
Proof.
  intros Hd. unfold groupsThenEnd, Plus. cbn [run].
  rewrite run_threeDigits by exact Hd.
  destruct s as [|a [|b [|c s']]]; try reflexivity.
  cbn [rest]. fold endOfDigits.
  assert (Hd' : forallb isDigit s' = true).
  { cbn [forallb] in Hd. repeat (apply andb_true_iff in Hd; destruct Hd as [_ Hd]). exact Hd. }
  rewrite star_threeDigits by (exact Hd' || apply le_n). reflexivity.
Qed.

Lemma matchAt_boundary_look (r : regex) (p : position) :
  matchAt (Seq NotWordBoundary (Look true r)) p =
  if Bool.eqb (isWordAt (before p)) (isWordAt (hd_error (rest p)))
  then match run r p [] (fun p' c' => Some (p', c')) with
       | Some (_, c') => Some (p, c')
       | None => None
       end
  else None.
Proof. reflexivity. Qed.

Lemma thousandsRe_eq : thousandsRe = Seq NotWordBoundary (Look true groupsThenEnd).
Proof. reflexivity. Qed.

Lemma matchAt_thousandsRe_stays (p q : position) (c : captures) :
  matchAt thousandsRe p = Some (q, c) -> q = p.
Proof.
  rewrite thousandsRe_eq, matchAt_boundary_look.
  destruct (Bool.eqb _ _); [|discriminate].
  destruct (run _ p [] _) as [[q' c']|]; [|discriminate].
  intros H. injection H as <- _. reflexivity.
Qed.

Lemma matchAt_thousandsRe_digits (prev : option N) (s : jsstring) :
  forallb isDigit s = true ->
  succeeds (matchAt thousandsRe (Pos prev s)) =
  Bool.eqb (isWordAt prev) (isWordAt (hd_error s)) && sepBefore s.
Proof.
  intros Hd. rewrite thousandsRe_eq, matchAt_boundary_look. cbn [before rest].
  destruct (Bool.eqb _ _); [|reflexivity]. cbn [andb].
  rewrite <- (groupsThenEnd_digits prev s []) by exact Hd.
  destruct (run groupsThenEnd _ _ _) as [[q' c']|]; reflexivity.
Qed.

Lemma replace_from_empty_match (r : regex) (by_ : jsstring) (prev : option N)
    (x : N) (xs : jsstring) :
  (forall q c, matchAt r (Pos prev (x :: xs)) = Some (q, c) -> q = Pos prev (x :: xs)) ->
  replace_from r by_ 0 prev (x :: xs) =
  (if succeeds (matchAt r (Pos prev (x :: xs))) then by_ else [])
    ++ x :: replace_from r by_ 0 (Some x) xs.
Proof.
  intros Hstay. cbn [replace_from].
  destruct (matchAt r (Pos prev (x :: xs))) as [[q c]|] eqn:Hm; [|reflexivity].
  rewrite (Hstay q c eq_refl). cbn [rest succeeds].
  rewrite Nat.sub_diag. reflexivity.
Qed.

Lemma replace_thousands_digits (s : jsstring) :
  forall prev,
    forallb isDigit s = true ->
    replace_from thousandsRe (lit ",") 0 prev s =
    (if isWordAt prev && sepBefore s then [44%N] else []) ++ spaced s.
Proof.
  induction s as [|x xs IH]; intros prev Hd.
  - cbn [replace_from].
    pose proof (matchAt_thousandsRe_digits prev [] Hd) as Hm.
    cbn [sepBefore] in *. rewrite andb_false_r in *.
    destruct (matchAt thousandsRe (Pos prev [])) as [[q c]|]; [discriminate|].
    reflexivity.
  - rewrite replace_from_empty_match
      by (intros q c; apply matchAt_thousandsRe_stays).
    rewrite matchAt_thousandsRe_digits by exact Hd.
    cbn [forallb] in Hd. apply andb_true_iff in Hd. destruct Hd as [Hx Hxs].
    rewrite IH by exact Hxs.
    cbn [hd_error isWordAt spaced]. rewrite (isDigit_isWordChar x Hx).
    cbn [andb].
    destruct (isWordAt prev); cbn [Bool.eqb andb]; [|reflexivity].
    destruct (sepBefore (x :: xs)); reflexivity.
Qed.

Lemma formatGasValue_spaced (digits : jsstring) :
  forallb isDigit digits = true ->
  replaceAll digits thousandsRe (lit ",") = spaced digits.
Proof.
  intros Hd. unfold replaceAll. rewrite replace_thousands_digits by exact Hd.
  reflexivity.
Qed.

Lemma sepBefore_rev (s : jsstring) : sepBefore (rev s) = sepBefore s.
Proof.
  unfold sepBefore. destruct s as [|x xs]; [reflexivity|].
  destruct (rev (x :: xs)) as [|y ys] eqn:E.
  - apply (f_equal (@length N)) in E. rewrite length_rev in E. discriminate.
  - rewrite <- E, length_rev. reflexivity.
Qed.

Lemma groupsOfThree_snoc (n : nat) :
  forall (l : jsstring) (x : N),
    (length l <= n)%nat ->
    groupsOfThree (l ++ [x]) =
    groupsOfThree l ++ (if sepBefore l then [44%N; x] else [x]).
Proof.
  induction n as [|n IH]; intros l x Hlen.
  - destruct l; [reflexivity|cbn [length] in Hlen; lia].
  - destruct l as [|a [|b [|c [|d m]]]]; try reflexivity.
    cbn [length] in Hlen.
    change (groupsOfThree ((a :: b :: c :: d :: m) ++ [x]))
      with (a :: b :: c :: 44%N :: groupsOfThree ((d :: m) ++ [x])).
    rewrite IH by (cbn [length]; lia).
    reflexivity.
Qed.

Lemma groupedFromRight_cons (x : N) (xs : jsstring) :
  groupedFromRight (x :: xs) =
  x :: (if sepBefore xs then [44%N] else []) ++ groupedFromRight xs.
Proof.
  unfold groupedFromRight. cbn [rev].
  rewrite (groupsOfThree_snoc (length (rev xs))) by apply le_n.
  rewrite rev_app_distr, sepBefore_rev.
  destruct (sepBefore xs); reflexivity.
Qed.

Lemma spaced_groupedFromRight (s : jsstring) : spaced s = groupedFromRight s.
Proof.
  induction s as [|x xs IH]; [reflexivity|].
  rewrite groupedFromRight_cons. cbn [spaced]. rewrite IH. reflexivity.
Qed.

Lemma spaced_short (s : jsstring) : (length s < 4)%nat -> spaced s = s.
Proof.
  destruct s as [|a [|b [|c [|d m]]]]; cbn [length]; intros H; try reflexivity. lia.
Qed.

Lemma spaced_long (s : jsstring) : (4 <= length s)%nat -> In 44%N (spaced s).
Proof.
  induction s as [|x xs IH]; cbn [length]; intros H; [lia|].
  cbn [spaced]. right. apply in_or_app.
  destruct (Nat.eq_dec (length xs) 3) as [H3|H3].
  - left. destruct xs as [|a [|b [|c [|d m]]]]; try discriminate. left. reflexivity.
  - right. apply IH. lia.
Qed.

Lemma lit_String (c : ascii) (s : string) : lit (String c s) = N_of_ascii c :: lit s.
Proof. reflexivity. Qed.

Lemma uint_digits (d : Decimal.uint) :
  forallb isDigit (lit (NilEmpty.string_of_uint d)) = true.
Proof.
  induction d; cbn [NilEmpty.string_of_uint]; try reflexivity;
    rewrite lit_String; cbn [forallb]; rewrite IHd; reflexivity.
Qed.

Lemma parseInt_from_uint (d : Decimal.uint) :
  forall acc : positive,
    parseInt_from (Z.pos acc) (lit (NilEmpty.string_of_uint d)) =
    Z.pos (Pos.of_uint_acc d acc).
Proof.
  induction d; intros acc; cbn [NilEmpty.string_of_uint Pos.of_uint_acc];
    try reflexivity;
    rewrite lit_String; cbn [parseInt_from];
    match goal with
    | |- context [isDigit ?c] => change (isDigit c) with true
    end; cbn iota;
    match goal with
    | |- context [digitValue ?c] =>
        let v := eval vm_compute in (digitValue c) in change (digitValue c) with v
    end;
    rewrite <- IHd; f_equal; lia.
Qed.

Lemma parseInt_uint (d : Decimal.uint) :
  parseInt_from 0 (lit (NilEmpty.string_of_uint d)) = Z.of_N (Pos.of_uint d).
Proof.
  induction d; cbn [NilEmpty.string_of_uint Pos.of_uint];
    try reflexivity;
    rewrite lit_String; cbn [parseInt_from];
    match goal with
    | |- context [isDigit ?c] => change (isDigit c) with true
    end; cbn iota;
    match goal with
    | |- context [digitValue ?c] =>
        let v := eval vm_compute in (digitValue c) in change (digitValue c) with v
    end;
    [exact IHd | apply parseInt_from_uint ..].
Qed.

Lemma toString_pos (p : positive) :
  toString (Z.pos p) = lit (NilEmpty.string_of_uint (Pos.to_uint p)).
Proof.
  unfold toString. cbn [Z.to_int NilZero.string_of_int].
  unfold NilZero.string_of_uint.
  destruct (Pos.to_uint p) eqn:E; try reflexivity.
  exfalso. exact (DecimalPos.Unsigned.to_uint_nonnil p E).
Qed.

Lemma toString_digits (n : Z) : 0 <= n -> forallb isDigit (toString n) = true.
Proof.
  destruct n as [|p|p]; intros H; [reflexivity| |lia].
  rewrite toString_pos. apply uint_digits.
Qed.

Lemma parseInt_toString (n : Z) : 0 <= n -> parseInt (toString n) = n.
Proof.
  destruct n as [|p|p]; intros H; [reflexivity| |lia].
  rewrite toString_pos. unfold parseInt. rewrite parseInt_uint.
  rewrite DecimalPos.Unsigned.of_to. reflexivity.
Qed.

(** C9.  For a safe integer that is not negative ([0 <= n <= 2^53 - 1],
    the integers that a number holds exactly), [formatGasValue] gives its
    decimal digits in groups of three from the right, with a comma between
    two groups; below four digits the digits come out as they are. *)
Theorem formatGasValue_groups_of_three (n : Z) :
  0 <= n <= MAX_SAFE_INTEGER ->
  forallb isDigit (toString n) = true /\
  parseInt (toString n) = n /\
  formatGasValue n = groupedFromRight (toString n) /\
  (if (length (toString n) <? 4)%nat
   then formatGasValue n = toString n
   else In 44%N (formatGasValue n)).
Proof.
  intros [Hn _]. pose proof (toString_digits n Hn) as Hd.
  assert (Hf : formatGasValue n = spaced (toString n))
    by (apply formatGasValue_spaced; exact Hd).
  split; [exact Hd|]. split; [apply parseInt_toString; exact Hn|].
  split; [rewrite Hf; apply spaced_groupedFromRight|].
  rewrite Hf. destruct (length (toString n) <? 4)%nat eqn:Hlen.
  - apply spaced_short. apply Nat.ltb_lt. exact Hlen.
  - apply spaced_long. apply Nat.ltb_ge in Hlen. exact Hlen.
Qed.

Lemma formatGasValue_groups_of_three_witness :
  0 <= 1234567 <= MAX_SAFE_INTEGER /\
  formatGasValue 1234567 = groupedFromRight (toString 1234567) /\
  formatGasValue 1234567 = lit "1,234,567".
Proof.
  split; [vm_compute; split; discriminate|]. split.
  - destruct (formatGasValue_groups_of_three 1234567) as (_ & _ & Hgroups & _);
      [vm_compute; split; discriminate | exact Hgroups].
  - vm_compute. reflexivity.
Defined.

(** * Further properties *)

(** ** The parser, line by line *)

Lemma split_lines_nonempty (s : jsstring) : split_lines s <> [].
Proof.
  induction s as [|c s IH]; cbn [split_lines]; [discriminate|].
  destruct (split_lines s); [discriminate|].
  destruct (c =? LF)%N; discriminate.
Qed.

Lemma split_lines_app (a b : jsstring) :
  split_lines (a ++ LF :: b) = split_lines a ++ split_lines b.
Proof.
  induction a as [|c a IH].
  - cbn [app split_lines]. pose proof (split_lines_nonempty b) as Hb.
    destruct (split_lines b); [contradiction|]. rewrite N.eqb_refl. reflexivity.
  - cbn [app split_lines]. rewrite IH.
    pose proof (split_lines_nonempty a) as Ha.
    destruct (split_lines a) as [|l ls]; [contradiction|].
    cbn [app]. destruct (c =? LF)%N; reflexivity.
Qed.

(** X1.  The parser works line by line: the records of two texts joined by
    a line feed are the records of the first followed by the records of the
    second. *)
Theorem parseGasDiff_app (a b : jsstring) :
  parseGasDiff (a ++ LF :: b) = parseGasDiff a ++ parseGasDiff b.
Proof.
  unfold parseGasDiff. rewrite split_lines_app, filter_app, flat_map_app.
  reflexivity.
Qed.

Lemma parseInt_from_nonneg (s : jsstring) :
  forall acc, 0 <= acc -> 0 <= parseInt_from acc s.
Proof.
  induction s as [|c s IH]; intros acc Hacc; cbn [parseInt_from]; [exact Hacc|].
  destruct (isDigit c); [|exact Hacc].
  apply IH. unfold digitValue. lia.
Qed.

Lemma parseInt_nonneg (s : jsstring) : 0 <= parseInt s.
Proof. apply parseInt_from_nonneg. lia. Qed.

Lemma parseGasDiff_from_line (diffOutput : jsstring) (c : change) :
  In c (parseGasDiff diffOutput) ->
  exists line, In line (split_lines diffOutput) /\ In c (parseLine line).
Proof.
  unfold parseGasDiff. intros H. apply in_flat_map in H.
  destruct H as (line & Hline & Hc). apply filter_In in Hline.
  exists line. split; [apply Hline|exact Hc].
Qed.

(** X2.  The numbers of a record: the new gas is not negative; an old gas,
    where there is one, is not negative and the gas change is the new gas
    minus the old one; without old gas the gas change is the new gas. *)
Theorem parseGasDiff_record_numbers (diffOutput : jsstring) (c : change) :
  In c (parseGasDiff diffOutput) ->
  0 <= newGas c /\
  match oldGas c with
  | Some old => 0 <= old /\ gasChange c = newGas c - old
  | None => gasChange c = newGas c
  end.
Proof.
  intros H. apply parseGasDiff_from_line in H. destruct H as (line & _ & H).
  unfold parseLine in H.
  destruct (str_match line changeRe) as [changeMatch|]; [|destruct H].
  destruct H as [<-|[]]. cbn [newGas oldGas gasChange].
  split; [apply parseInt_nonneg|].
  destruct (str_match line oldGasRe) as [oldGasMatch|]; [|reflexivity].
  destruct (group 1 oldGasMatch) as [old|]; [|reflexivity].
  destruct (truthy_str old); [|reflexivity].
  split; [apply parseInt_nonneg|reflexivity].
Qed.

Lemma parseGasDiff_record_numbers_witness :
  0 <= 1200 /\ 0 <= 1000 /\ 200 = 1200 - 1000.
Proof.
  pose proof (parseGasDiff_record_numbers
                (lit "+Token:transfer() gas 1000 -> 1200")
                (Change regression (lit "Token") (lit "transfer") (Some 1000) 1200 200))
    as H.
  cbn [newGas oldGas gasChange] in H. destruct H as (Hnew & Hold & Hchange).
  - vm_compute. left. reflexivity.
  - repeat split; assumption.
Defined.

(** ** Thousands separators and the sign *)

Lemma stripCommas_spaced (s : jsstring) :
  forallb isDigit s = true -> stripCommas (spaced s) = s.
Proof.
  induction s as [|x xs IH]; intros Hd; [reflexivity|].
  cbn [forallb] in Hd. apply andb_true_iff in Hd. destruct Hd as [Hx Hxs].
  cbn [spaced]. unfold stripCommas in *. cbn [filter].
  assert (Hcomma : (x =? 44)%N = false).
  { destruct (x =? 44)%N eqn:E; [|reflexivity].
    apply N.eqb_eq in E. subst x. discriminate. }
  rewrite Hcomma. cbn [negb]. f_equal.
  rewrite filter_app, IH by exact Hxs.
  destruct (sepBefore xs); reflexivity.
Qed.

Lemma toString_neg (p : positive) :
  toString (Z.neg p) = 45%N :: toString (Z.pos p).
Proof. reflexivity. Qed.

Lemma groupsThenEnd_not_digit (prev : option N) (x : N) (s : jsstring)
    (cap : captures) (k : continuation) :
  isDigit x = false -> run groupsThenEnd (Pos prev (x :: s)) cap k = None.
Proof.
  intros Hx. unfold groupsThenEnd, Plus, threeDigits. cbn [run rest].
  rewrite Hx. reflexivity.
Qed.

Lemma formatGasValue_neg_pos (p : positive) :
  formatGasValue (Z.neg p) = 45%N :: formatGasValue (Z.pos p).
Proof.
  unfold formatGasValue.
  rewrite toString_neg. unfold replaceAll.
  rewrite replace_from_empty_match
    by (intros q c; apply matchAt_thousandsRe_stays).
  rewrite thousandsRe_eq at 1. rewrite matchAt_boundary_look.
  cbn [before rest hd_error isWordAt].
  rewrite groupsThenEnd_not_digit by reflexivity.
  change (isWordChar 45) with false. cbn [Bool.eqb succeeds app].
  pose proof (toString_digits (Z.pos p) ltac:(lia)) as Hd.
  rewrite !replace_thousands_digits by exact Hd.
  reflexivity.
Qed.

(** X3.  Below zero the minus sign stays in front and the digits are
    grouped as those of the absolute value. *)
Theorem formatGasValue_negative (n : Z) :
  0 < n -> formatGasValue (- n) = 45%N :: formatGasValue n.
Proof.
  destruct n as [|p|p]; intros Hn; try lia.
  cbn [Z.opp]. apply formatGasValue_neg_pos.
Qed.

Lemma formatGasValue_negative_witness :
  0 < 1234 /\ formatGasValue (- 1234) = 45%N :: formatGasValue 1234.
Proof.
  split; [lia|]. apply (formatGasValue_negative 1234). lia.
Defined.

(** X4.  Taking the commas out of a formatted number gives the number as
    [toString] writes it, whatever its sign: the formatting adds commas and
    nothing else. *)
Theorem formatGasValue_without_commas (n : Z) :
  stripCommas (formatGasValue n) = toString n.
Proof.
  assert (Hpos : forall m, 0 <= m -> stripCommas (formatGasValue m) = toString m).
  { intros m Hm. unfold formatGasValue.
    rewrite formatGasValue_spaced by (apply toString_digits; exact Hm).
    apply stripCommas_spaced, toString_digits, Hm. }
  destruct n as [|p|p]; [apply Hpos; lia|apply Hpos; lia|].
  rewrite formatGasValue_neg_pos, toString_neg.
  unfold stripCommas at 1. cbn [filter]. change (45 =? 44)%N with false.
  cbn [negb]. f_equal. apply Hpos. lia.
Qed.

(** ** The table rendered twice *)

Section SortAgain.
Context {A : Type} (key : A -> Z) (comparefn : A -> A -> Z).
Hypothesis comparefn_key : forall a b, comparefn a b = key b - key a.


End SortAgain.

Lemma generateMarkdownTable_empty (pct : Z -> Z -> jsstring) (limit : option Z) :
  generateMarkdownTable pct [] limit = (noTable, []).
Proof. reflexivity. Qed.





(** ** The summary and the order of the records *)

Lemma sumAbs_perm (t : changeType) (l l' : list change) :
  Permutation l l' -> sumAbs t l = sumAbs t l'.
Proof.
  induction 1 as [|x l l' _ IH|x y l|l l' l'' _ IH1 _ IH2]; cbn [sumAbs];
    [reflexivity|rewrite IH; reflexivity|lia|congruence].
Qed.

Lemma filter_length_perm {A : Type} (f : A -> bool) (l l' : list A) :
  Permutation l l' -> length (filter f l) = length (filter f l').
Proof.
  induction 1 as [|x l l' _ IH|x y l|l l' l'' _ IH1 _ IH2]; cbn [filter].
  - reflexivity.
  - destruct (f x); cbn [length]; rewrite IH; reflexivity.
  - destruct (f x), (f y); reflexivity.
  - congruence.
Qed.

Lemma generateSummary_from_totals (changes : list change) :
  generateSummary changes =
  let net := sumAbs regression changes - sumAbs improvement changes in
  let indicator :=
    if net >? 0 then (red, lit "+" ++ formatGasValue net ++ lit " gas")
    else if net <? 0 then (green, formatGasValue net ++ lit " gas")
    else (white, lit "No change") in
  {| improvements := length (filter (fun c => changeType_eqb (type c) improvement) changes);
     regressions := length (filter (fun c => changeType_eqb (type c) regression) changes);
     totalImprovement := sumAbs improvement changes;
     totalRegression := sumAbs regression changes;
     netChange := net;
     netIcon := fst indicator;
     netText := snd indicator |}.
Proof.
  unfold generateSummary. rewrite !fold_filter_sumAbs. cbv zeta.
  destruct (_ >? 0); [reflexivity|]. destruct (_ <? 0); reflexivity.
Qed.

(** X7.  The summary does not depend on the order of the records; so it
    is the same before and after the sort that the table does in place. *)
Theorem generateSummary_permutation (changes changes' : list change) :
  Permutation changes changes' ->
  generateSummary changes = generateSummary changes'.
Proof.
  intros Hperm. rewrite !generateSummary_from_totals.
  rewrite (sumAbs_perm regression _ _ Hperm), (sumAbs_perm improvement _ _ Hperm).
  rewrite (filter_length_perm _ _ _ Hperm).
  rewrite (filter_length_perm (fun c => changeType_eqb (type c) regression) _ _ Hperm).
  reflexivity.
Qed.

Lemma generateSummary_permutation_witness :
  generateSummary
    [sampleChange regression "a" 100 150; sampleChange improvement "b" 900 400] =
  generateSummary
    [sampleChange improvement "b" 900 400; sampleChange regression "a" 100 150].
Proof.
  apply generateSummary_permutation. apply perm_swap.
Defined.

Lemma sumAbs_nonneg (t : changeType) (changes : list change) : 0 <= sumAbs t changes.
Proof.
  induction changes as [|c cs IH]; cbn [sumAbs]; [lia|].
  destruct (changeType_eqb (type c) t); lia.
Qed.

Lemma counts_partition (changes : list change) :
  (length (filter (fun c => changeType_eqb (type c) improvement) changes)
   + length (filter (fun c => changeType_eqb (type c) regression) changes))%nat
  = length changes.
Proof.
  induction changes as [|c cs IH]; [reflexivity|].
  cbn [filter]. destruct (type c); cbn [changeType_eqb length]; lia.
Qed.

(** X8.  Every record counts once, as an improvement or as a regression;
    the two totals are not negative, and the net change lies between minus
    the total of the improvements and the total of the regressions. *)
Theorem generateSummary_counts_and_bounds (changes : list change) :
  (improvements (generateSummary changes) + regressions (generateSummary changes))%nat
    = length changes /\
  0 <= totalImprovement (generateSummary changes) /\
  0 <= totalRegression (generateSummary changes) /\
  - totalImprovement (generateSummary changes) <= netChange (generateSummary changes)
    <= totalRegression (generateSummary changes).
Proof.
  rewrite generateSummary_from_totals. cbv zeta.
  cbn [improvements regressions totalImprovement totalRegression netChange].
  pose proof (sumAbs_nonneg improvement changes).
  pose proof (sumAbs_nonneg regression changes).
  split; [apply counts_partition|lia].
Qed.

(** ** The footer of the report *)

Lemma generateFooter_shown (w : world) (fullCommitSha : jsstring) :
  generateFooter w
    (if truthy_str fullCommitSha then substring0 7 fullCommitSha else []) fullCommitSha =
  lit "*Last updated: " ++ utcNow w ++ lit "* for commit "
    ++ lit "[`" ++ shownSha fullCommitSha ++ lit "`](https://github.com/"
    ++ orDefault (env w "GITHUB_REPOSITORY") (lit "owner/repo")
    ++ lit "/commit/" ++ fullCommitSha ++ lit ")".
Proof.
  unfold generateFooter, shownSha.
  destruct fullCommitSha as [|x t]; reflexivity.
Qed.

(** X9.  Both variants of the report end with the time stamp and a link
    to the commit: the link shows the first seven code units of the SHA, or
    [unknown] where the SHA is missing or empty, and points to the commit
    page of the repository named by [GITHUB_REPOSITORY], or of [owner/repo]
    where that is missing or empty. *)
Theorem generateFullReport_ends_with_commit_link (pct : Z -> Z -> jsstring)
    (w : world) (diffOutput : jsstring) (prInfo : prInfo) :
  exists body : jsstring,
    generateFullReport pct w diffOutput prInfo =
    body ++ lit "*Last updated: " ++ utcNow w ++ lit "* for commit "
      ++ lit "[`" ++ shownSha (orDefault (commitSha prInfo) [])
      ++ lit "`](https://github.com/"
      ++ orDefault (env w "GITHUB_REPOSITORY") (lit "owner/repo")
      ++ lit "/commit/" ++ orDefault (commitSha prInfo) [] ++ lit ")".
Proof.
  rewrite <- generateFooter_shown.
  set (full := orDefault (commitSha prInfo) []).
  set (short := if truthy_str full then substring0 7 full else []).
  cut (exists body, forall w',
          generateFullReport pct w' diffOutput prInfo =
          body ++ generateFooter w' short full).
  { intros (body & H). exists body. apply H. }
  unfold generateFullReport, generateNoChangesReport. fold full. fold short.
  destruct (negb (truthy_str diffOutput) || (length (trim diffOutput) =? 0)%nat);
    [|destruct (length (parseGasDiff diffOutput) =? 0)%nat;
      [|destruct (generateMarkdownTable pct (parseGasDiff diffOutput) None)
          as [table changes]]];
    repeat first [ apply (peel_done (fun w => generateFooter w short full))
                 | apply (peel_head _ _ (fun w => generateFooter w short full)) ].
Qed.

(** ** The command line *)

(** X10.  Run as a script: with a command other than [generate], or
    without [gas-diff.txt] in the working directory, the run ends with code
    1 and leaves every file as it was, so that a run that ends with code 0
    had the command [generate] and found [gas-diff.txt].  No run changes a
    file other than [gas-report.md] of the working directory. *)
Theorem main_exit_code_and_files (join : jsstring -> jsstring -> jsstring)
    (pct : Z -> Z -> jsstring) (w : world) (cwd : jsstring)
    (command : option jsstring) (fs : files) :
  (command <> Some (lit "generate") \/ fs (join cwd (lit "gas-diff.txt")) = None ->
   main join pct w cwd command fs = (1, fs)) /\
  (fst (main join pct w cwd command fs) = 0 ->
   command = Some (lit "generate") /\ fs (join cwd (lit "gas-diff.txt")) <> None) /\
  (forall path, path <> join cwd (lit "gas-report.md") ->
                snd (main join pct w cwd command fs) path = fs path).
Proof.
  unfold main, generateReportFromFile.
  destruct command as [c|].
  - destruct (jsstring_eqb c (lit "generate")) eqn:Hc.
    + apply jsstring_eqb_eq in Hc. subst c.
      destruct (fs (join cwd (lit "gas-diff.txt"))) as [diffOutput|] eqn:Hdiff;
        cbn [fst snd].
      * split; [intros [H|H]; [contradiction H; reflexivity|discriminate H]|].
        split; [intros _; split; [reflexivity|discriminate]|].
        intros path Hpath. unfold writeFileSync.
        destruct (jsstring_eqb path _) eqn:E; [|reflexivity].
        apply jsstring_eqb_eq in E. contradiction.
      * split; [intros _; reflexivity|].
        split; [discriminate|reflexivity].
    + cbn [fst snd].
      split; [intros _; reflexivity|]. split; [discriminate|reflexivity].
  - cbn [fst snd].
    split; [intros _; reflexivity|]. split; [discriminate|reflexivity].
Qed.

(** X11.  What the script writes is what the comment helper reads: after
    [generate] in a working directory that holds [gas-diff.txt],
    [readReport] of [gas-report.md], with [GITHUB_WORKSPACE] set to that
    directory, returns the report of the diff, made with the branch names
    and the SHA of the environment ([main] and [feature] where the names
    are missing). *)
Theorem generate_then_readReport (join : jsstring -> jsstring -> jsstring)
    (pct : Z -> Z -> jsstring) (w w' : world) (cwd : jsstring) (fs : files)
    (diffOutput : jsstring) :
  fs (join cwd (lit "gas-diff.txt")) = Some diffOutput ->
  env w' "GITHUB_WORKSPACE" = Some cwd ->
  readReport join w'
    (snd (main join pct w cwd (Some (lit "generate")) fs)) (lit "gas-report.md") =
  Returned (Some (generateFullReport pct w diffOutput (prInfoOfEnv w))).
Proof.
  intros Hdiff Hws. unfold main, generateReportFromFile, readReport.
  assert (Ht : jsstring_eqb (lit "generate") (lit "generate") = true)
    by (apply jsstring_eqb_eq; reflexivity).
  rewrite Ht, Hdiff, Hws. cbn [snd]. unfold writeFileSync.
  assert (Hp : jsstring_eqb (join cwd (lit "gas-report.md"))
                 (join cwd (lit "gas-report.md")) = true)
    by (apply jsstring_eqb_eq; reflexivity).
  rewrite Hp. reflexivity.
Qed.

Lemma generate_then_readReport_witness :
  readReport joinPlain sampleWorkspace
    (snd (main joinPlain percentTruncated sampleWorkspace (lit "/work")
            (Some (lit "generate")) sampleFiles))
    (lit "gas-report.md") =
  Returned (Some (generateFullReport percentTruncated sampleWorkspace
                    (lit "+Token:transfer() gas 1000 -> 1200")
                    (prInfoOfEnv sampleWorkspace))).
Proof.
  apply generate_then_readReport; reflexivity.
Defined.

(** ** The comment of the bot, run after run *)

Lemma isBot_user (rev : WorkflowUtils.revision) (c : WorkflowUtils.comment)
    (i : Z) (b : jsstring) :
  WorkflowUtils.isBot rev (WorkflowUtils.Comment i (WorkflowUtils.user c) b) =
  WorkflowUtils.isBot rev c.
Proof. destruct rev; reflexivity. Qed.

Lemma find_app_none {A : Type} (f : A -> bool) (l1 l2 : list A) :
  filter f l1 = [] -> find f (l1 ++ l2) = find f l2.
Proof.
  induction l1 as [|a l1 IH]; intros H; [reflexivity|].
  cbn [filter] in H. cbn [app find].
  destruct (f a); [discriminate|]. apply IH, H.
Qed.

Lemma freshId_above (comments : list WorkflowUtils.comment) (c : WorkflowUtils.comment) :
  In c comments -> WorkflowUtils.id c < WorkflowUtils.freshId comments.
Proof.
  unfold WorkflowUtils.freshId.
  induction comments as [|a l IH]; intros H; [destruct H|].
  cbn [map fold_right]. destruct H as [->|H]; [lia|].
  specialize (IH H). lia.
Qed.

Lemma freshId_not_in (comments : list WorkflowUtils.comment) :
  ~ In (WorkflowUtils.freshId comments) (map WorkflowUtils.id comments).
Proof.
  intros H. apply in_map_iff in H. destruct H as (c & Heq & Hin).
  apply freshId_above in Hin. lia.
Qed.

Lemma NoDup_snoc {A : Type} (l : list A) (x : A) :
  NoDup l -> ~ In x l -> NoDup (l ++ [x]).
Proof.
  intros Hl Hx. apply NoDup_rev in Hl.
  rewrite <- (rev_involutive (l ++ [x])). apply NoDup_rev.
  rewrite rev_app_distr. cbn [rev app]. constructor; [|exact Hl].
  intros H. apply in_rev in H. contradiction.
Qed.

(** The two outcomes of [postOrUpdateComment], on comments of distinct
    identifiers. *)
Lemma postOrUpdateComment_cases (rev : WorkflowUtils.revision)
    (actor : WorkflowUtils.account) (comments : list WorkflowUtils.comment)
    (body commentMarker : jsstring) :
  NoDup (map WorkflowUtils.id comments) ->
  (exists l1 e l2,
      comments = l1 ++ e :: l2 /\
      WorkflowUtils.isBotComment rev commentMarker e = true /\
      filter (WorkflowUtils.isBotComment rev commentMarker) l1 = [] /\
      WorkflowUtils.postOrUpdateComment rev actor comments body commentMarker =
        l1 ++ WorkflowUtils.Comment (WorkflowUtils.id e) (WorkflowUtils.user e) body :: l2) \/
  (filter (WorkflowUtils.isBotComment rev commentMarker) comments = [] /\
   WorkflowUtils.postOrUpdateComment rev actor comments body commentMarker =
     comments ++ [WorkflowUtils.Comment (WorkflowUtils.freshId comments) actor body]).
Proof.
  intros Hnodup.
  unfold WorkflowUtils.postOrUpdateComment, WorkflowUtils.findBotComment,
    WorkflowUtils.listComments.
  destruct (find _ comments) as [e|] eqn:Hfind.
  - left. destruct (find_first _ comments e Hfind) as (l1 & l2 & -> & He & Hnone).
    exists l1, e, l2. rewrite updateComment_in_place by exact Hnodup.
    repeat split; assumption.
  - right. split; [apply find_none_filter, Hfind|reflexivity].
Qed.

Lemma postOrUpdateComment_ids_distinct (rev : WorkflowUtils.revision)
    (actor : WorkflowUtils.account) (comments : list WorkflowUtils.comment)
    (body commentMarker : jsstring) :
  NoDup (map WorkflowUtils.id comments) ->
  NoDup (map WorkflowUtils.id
           (WorkflowUtils.postOrUpdateComment rev actor comments body commentMarker)).
Proof.
  intros Hnodup.
  destruct (postOrUpdateComment_cases rev actor comments body commentMarker Hnodup)
    as [(l1 & e & l2 & -> & He & Hnone & ->)|[Hnone ->]].
  - rewrite map_app in *. cbn [map WorkflowUtils.id] in *. exact Hnodup.
  - rewrite map_app. cbn [map WorkflowUtils.id].
    apply NoDup_snoc; [exact Hnodup|apply freshId_not_in].
Qed.

(** X12.  [postOrUpdateComment] leaves the identifiers of the comments
    distinct, and it leaves alone every comment that is not a comment of a
    bot with the marker: such a comment is on the PR afterwards as it was. *)
Theorem postOrUpdateComment_keeps_other_comments (rev : WorkflowUtils.revision)
    (actor : WorkflowUtils.account) (comments : list WorkflowUtils.comment)
    (body commentMarker : jsstring) :
  NoDup (map WorkflowUtils.id comments) ->
  NoDup (map WorkflowUtils.id
           (WorkflowUtils.postOrUpdateComment rev actor comments body commentMarker)) /\
  forall c, In c comments ->
            WorkflowUtils.isBotComment rev commentMarker c = false ->
            In c (WorkflowUtils.postOrUpdateComment rev actor comments body commentMarker).
Proof.
  intros Hnodup. split; [apply postOrUpdateComment_ids_distinct, Hnodup|].
  destruct (postOrUpdateComment_cases rev actor comments body commentMarker Hnodup)
    as [(l1 & e & l2 & -> & He & Hnone & ->)|[Hnone ->]].
  - intros c Hc Hother. apply in_app_or in Hc. apply in_or_app.
    destruct Hc as [Hc|[<-|Hc]]; [left; exact Hc|congruence|right; right; exact Hc].
  - intros c Hc _. apply in_or_app. left. exact Hc.
Qed.

Lemma postOrUpdateComment_keeps_other_comments_witness :
  In sampleAlice
    (WorkflowUtils.postOrUpdateComment WorkflowUtils.ByTypeOrLogin sampleActor
       [sampleAlice; sampleOldReport] (lit "<!-- gas --> new report")
       (lit "<!-- gas -->")).
Proof.
  destruct (postOrUpdateComment_keeps_other_comments WorkflowUtils.ByTypeOrLogin
              sampleActor [sampleAlice; sampleOldReport]
              (lit "<!-- gas --> new report") (lit "<!-- gas -->"))
    as [_ Hkeep].
  - repeat constructor; cbn; intuition discriminate.
  - apply Hkeep; [left; reflexivity|reflexivity].
Defined.

(** X13.  Run again with the same body, [postOrUpdateComment] changes
    nothing, provided that the body holds the marker and that the account of
    the workflow is one that [findBotComment] takes for a bot: the comment
    is not posted twice. *)
Theorem postOrUpdateComment_idempotent (rev : WorkflowUtils.revision)
    (actor : WorkflowUtils.account) (comments : list WorkflowUtils.comment)
    (body commentMarker : jsstring) :
  NoDup (map WorkflowUtils.id comments) ->
  includes body commentMarker = true ->
  WorkflowUtils.isBot rev (WorkflowUtils.Comment 0 actor []) = true ->
  WorkflowUtils.postOrUpdateComment rev actor
    (WorkflowUtils.postOrUpdateComment rev actor comments body commentMarker)
    body commentMarker =
  WorkflowUtils.postOrUpdateComment rev actor comments body commentMarker.
Proof.
  intros Hnodup Hmarker Hactor.
  pose proof (postOrUpdateComment_ids_distinct rev actor comments body
                commentMarker Hnodup) as Hnodup'.
  destruct (postOrUpdateComment_cases rev actor comments body commentMarker Hnodup)
    as [(l1 & e & l2 & -> & He & Hnone & Heq)|[Hnone Heq]];
    rewrite Heq in *.
  - unfold WorkflowUtils.postOrUpdateComment at 1,
      WorkflowUtils.findBotComment, WorkflowUtils.listComments.
    rewrite find_app_none by exact Hnone. cbn [find].
    unfold WorkflowUtils.isBotComment at 1. cbn [WorkflowUtils.body].
    rewrite isBot_user, Hmarker.
    unfold WorkflowUtils.isBotComment in He. apply andb_true_iff in He.
    destruct He as [He _]. rewrite He. cbn [andb].
    change (WorkflowUtils.id e)
      with (WorkflowUtils.id
              (WorkflowUtils.Comment (WorkflowUtils.id e) (WorkflowUtils.user e) body)) at 1.
    rewrite updateComment_in_place by exact Hnodup'. reflexivity.
  - unfold WorkflowUtils.postOrUpdateComment at 1,
      WorkflowUtils.findBotComment, WorkflowUtils.listComments.
    rewrite find_app_none by exact Hnone. cbn [find].
    unfold WorkflowUtils.isBotComment at 1. cbn [WorkflowUtils.body].
    rewrite Hmarker, andb_true_r.
    change actor with (WorkflowUtils.user (WorkflowUtils.Comment 0 actor [])) at 1.
    rewrite isBot_user, Hactor.
    change (WorkflowUtils.id
              (WorkflowUtils.Comment (WorkflowUtils.freshId comments)
                 (WorkflowUtils.user (WorkflowUtils.Comment 0 actor [])) body))
      with (WorkflowUtils.id
              (WorkflowUtils.Comment (WorkflowUtils.freshId comments) actor body)).
    change (WorkflowUtils.user (WorkflowUtils.Comment 0 actor [])) with actor.
    change (comments ++ [WorkflowUtils.Comment (WorkflowUtils.freshId comments) actor body])
      with (comments ++ WorkflowUtils.Comment (WorkflowUtils.freshId comments) actor body :: [])
      in *.
    rewrite updateComment_in_place by exact Hnodup'. reflexivity.
Qed.

Lemma postOrUpdateComment_idempotent_witness :
  WorkflowUtils.postOrUpdateComment WorkflowUtils.ByTypeOrLogin sampleActor
    (WorkflowUtils.postOrUpdateComment WorkflowUtils.ByTypeOrLogin sampleActor
       [sampleAlice] (lit "<!-- gas --> new report") (lit "<!-- gas -->"))
    (lit "<!-- gas --> new report") (lit "<!-- gas -->") =
  WorkflowUtils.postOrUpdateComment WorkflowUtils.ByTypeOrLogin sampleActor
    [sampleAlice] (lit "<!-- gas --> new report") (lit "<!-- gas -->").
Proof.
  apply postOrUpdateComment_idempotent.
  - repeat constructor; cbn; intuition discriminate.
  - vm_compute. reflexivity.
  - vm_compute. reflexivity.
Defined.

(** ** What the matcher takes, and that it finds what is there *)

Lemma Matches_eol_inv (p q : position) (c d : captures) :
  Matches Eol p c q d -> rest p = [] /\ q = p /\ d = c.
Proof. intros H. inversion H; subst. auto. Qed.

Lemma Matches_star_chr_taken (g : bool) (f : N -> bool) (p q : position)
    (c d : captures) :
  Matches (Star g (Chr f)) p c q d ->
  d = c /\ exists taken, rest p = taken ++ rest q /\ forallb f taken = true.
Proof.
  intros H. remember (Star g (Chr f)) as r eqn:Hr.
  induction H as [| | |g' r' p c p1 c1 p2 c2 Hbody _ Hlt _ IH| | | | | |];
    try discriminate; injection Hr as -> ->.
  - split; [reflexivity|]. exists []. split; reflexivity.
  - apply Matches_chr_inv in Hbody. destruct Hbody as (x & Hrest & Hx & ->).
    destruct (IH eq_refl) as [-> (taken & Htaken & Hall)].
    split; [reflexivity|]. exists (x :: taken). split.
    + rewrite Hrest, Htaken. reflexivity.
    + cbn [forallb]. rewrite Hx, Hall. reflexivity.
Qed.

Lemma Matches_plus_chr_taken (g : bool) (f : N -> bool) (p q : position)
    (c d : captures) :
  Matches (Plus g (Chr f)) p c q d ->
  d = c /\ exists taken,
    rest p = taken ++ rest q /\ taken <> [] /\ forallb f taken = true.
Proof.
  intros H. apply Matches_seq_inv in H. destruct H as (p1 & c1 & Hchr & Hstar).
  apply Matches_chr_inv in Hchr. destruct Hchr as (x & Hrest & Hx & ->).
  apply Matches_star_chr_taken in Hstar.
  destruct Hstar as [-> (taken & Htaken & Hall)].
  split; [reflexivity|]. exists (x :: taken). repeat split.
  - rewrite Hrest, Htaken. reflexivity.
  - discriminate.
  - cbn [forallb]. rewrite Hx, Hall. reflexivity.
Qed.

Lemma between_taken (p q : position) (taken : jsstring) :
  rest p = taken ++ rest q -> between p q = taken.
Proof.
  unfold between. intros ->. rewrite length_app.
  replace (length taken + length (rest q) - length (rest q))%nat
    with (length taken + 0)%nat by lia.
  rewrite firstn_app_2. cbn [firstn]. apply app_nil_r.
Qed.

Lemma Matches_group_plus_chr (n : nat) (g : bool) (f : N -> bool)
    (p q : position) (c d : captures) :
  Matches (Group n (Plus g (Chr f))) p c q d ->
  exists taken,
    rest p = taken ++ rest q /\ taken <> [] /\ forallb f taken = true /\
    d = (n, taken) :: c.
Proof.
  intros H. apply Matches_group_inv in H. destruct H as (c1 & H & ->).
  apply Matches_plus_chr_taken in H. destruct H as [-> (taken & Hrest & Hne & Hall)].
  exists taken. rewrite (between_taken p q taken Hrest). auto.
Qed.

(** A line that the change expression matches has the shape, and the four
    captures are the sign, the contract, the function and the digits. *)
Lemma changeRe_shape (line : jsstring) (changeMatch : captures) :
  str_match line changeRe = Some changeMatch ->
  exists sign contract func text digits space,
    lineShape line sign contract func text digits space /\
    captured 1 changeMatch = [sign] /\
    captured 2 changeMatch = contract /\
    captured 3 changeMatch = func /\
    captured 4 changeMatch = digits.
Proof.
  unfold str_match. intros H. apply exec_from_sound in H.
  destruct H as (p & q & Hm & Hstart). unfold changeRe, dataLineRe in Hm.
  apply Matches_seq_inv in Hm. destruct Hm as (p1 & c1 & Hbol & Hm).
  apply Matches_bol_inv in Hbol. destruct Hbol as (Hnone & -> & ->).
  destruct (Hstart Hnone) as [-> _]. clear Hstart Hnone.
  apply Matches_seq_inv in Hm. destruct Hm as (p2 & c2 & Hsign & Hm).
  apply Matches_group_inv in Hsign. destruct Hsign as (c0 & Hsign & ->).
  apply Matches_chr_inv in Hsign. destruct Hsign as (sign & Hrest & Hsign & ->).
  cbn [rest] in Hrest.
  assert (Hbetween : between (Pos None line) p2 = [sign]).
  { apply between_taken. cbn [rest]. exact Hrest. }
  rewrite Hbetween in Hm.
  apply Matches_seq_inv in Hm. destruct Hm as (p3 & c3 & Hg & Hm).
  apply Matches_group_plus_chr in Hg.
  destruct Hg as (contract & Hr2 & Hcne & Hcall & ->).
  apply Matches_seq_inv in Hm. destruct Hm as (p4 & c4 & Hc & Hm).
  apply Matches_chr_inv in Hc. destruct Hc as (colon & Hr3 & Hcolon & ->).
  apply Matches_seq_inv in Hm. destruct Hm as (p5 & c5 & Hg & Hm).
  apply Matches_group_plus_chr in Hg.
  destruct Hg as (func & Hr4 & Hfne & Hfall & ->).
  apply Matches_seq_inv in Hm. destruct Hm as (p6 & c6 & Hc & Hm).
  apply Matches_chr_inv in Hc. destruct Hc as (open & Hr5 & Hopen & ->).
  apply Matches_seq_inv in Hm. destruct Hm as (p7 & c7 & Hc & Hm).
  apply Matches_chr_inv in Hc. destruct Hc as (close & Hr6 & Hclose & ->).
  apply Matches_seq_inv in Hm. destruct Hm as (p8 & c8 & Hs & Hm).
  apply Matches_star_chr_taken in Hs. destruct Hs as [-> (text & Hr7 & Htext)].
  apply Matches_seq_inv in Hm. destruct Hm as (p9 & c9 & Hg & Hm).
  apply Matches_group_plus_chr in Hg.
  destruct Hg as (digits & Hr8 & Hdne & Hdall & ->).
  apply Matches_seq_inv in Hm. destruct Hm as (p10 & c10 & Hs & Hm).
  apply Matches_star_chr_taken in Hs. destruct Hs as [-> (space & Hr9 & Hspace)].
  apply Matches_eol_inv in Hm. destruct Hm as (Hend & -> & ->).
  assert (Hcolon' : colon = 58%N).
  { unfold oneOf in Hcolon. cbn in Hcolon. rewrite orb_false_r in Hcolon.
    apply N.eqb_eq in Hcolon. exact Hcolon. }
  assert (Hopen' : open = 40%N).
  { unfold oneOf in Hopen. cbn in Hopen. rewrite orb_false_r in Hopen.
    apply N.eqb_eq in Hopen. exact Hopen. }
  assert (Hclose' : close = 41%N).
  { unfold oneOf in Hclose. cbn in Hclose. rewrite orb_false_r in Hclose.
    apply N.eqb_eq in Hclose. exact Hclose. }
  subst colon open close.
  exists sign, contract, func, text, digits, space.
  split; [|repeat split; reflexivity].
  unfold lineShape. repeat split; try assumption.
  rewrite Hrest, Hr2, Hr3, Hr4, Hr5, Hr6, Hr7, Hr8, Hr9, Hend, app_nil_r.
  reflexivity.
Qed.

Lemma sign_type (sign : N) :
  oneOf "+-" sign = true ->
  (if jsstring_eqb [sign] (lit "+") then regression else improvement) = typeOfSign sign.
Proof.
  intros H. unfold oneOf in H. cbn in H. rewrite orb_false_r in H.
  apply orb_true_iff in H. destruct H as [H|H]; apply N.eqb_eq in H; subst sign;
    reflexivity.
Qed.

Lemma record_line_shape (diffOutput : jsstring) (c : change) :
  In c (parseGasDiff diffOutput) ->
  exists line sign contractName functionName text digits space,
    In line (split_lines diffOutput) /\
    lineShape line sign contractName functionName text digits space /\
    type c = typeOfSign sign /\
    contract c = trim contractName /\
    function c = trim functionName /\
    newGas c = parseInt digits.
Proof.
  intros H. apply parseGasDiff_from_line in H. destruct H as (line & Hline & H).
  unfold parseLine in H.
  destruct (str_match line changeRe) as [changeMatch|] eqn:Hm; [|destruct H].
  apply changeRe_shape in Hm.
  destruct Hm as (sign & cn & fn & text & digits & space & Hshape & H1 & H2 & H3 & H4).
  destruct H as [<-|[]]. rewrite H1, H2, H3, H4.
  exists line, sign, cn, fn, text, digits, space.
  cbn [type contract function newGas].
  split; [exact Hline|]. split; [exact Hshape|].
  split; [apply sign_type, Hshape|]. repeat split.
Qed.

(** ** The names of a record *)

Lemma trimStart_split (s : jsstring) :
  exists w, s = w ++ trimStart s /\ forallb isWhiteSpace w = true.
Proof.
  induction s as [|c s (w & Hs & Hw)]; [exists []; split; reflexivity|].
  cbn [trimStart]. destruct (isWhiteSpace c) eqn:Hc.
  - exists (c :: w). split; [cbn [app]; f_equal; exact Hs|].
    cbn [forallb]. rewrite Hc, Hw. reflexivity.
  - exists []. split; reflexivity.
Qed.

Lemma trimStart_idempotent (s : jsstring) : trimStart (trimStart s) = trimStart s.
Proof.
  destruct (trimStart s) as [|x t] eqn:E; [reflexivity|].
  pose proof (trimStart_head s t x E) as Hx. cbn [trimStart]. rewrite Hx. reflexivity.
Qed.

(** [trim] takes white space off the two ends and nothing else. *)
Lemma trim_split (s : jsstring) :
  exists w1 w2,
    s = w1 ++ trim s ++ w2 /\
    forallb isWhiteSpace w1 = true /\ forallb isWhiteSpace w2 = true.
Proof.
  unfold trim, trimEnd.
  destruct (trimStart_split s) as (w1 & Hs & Hw1).
  destruct (trimStart_split (rev (trimStart s))) as (w & Hu & Hw).
  exists w1, (rev w). repeat split; [|exact Hw1|rewrite forallb_rev; exact Hw].
  rewrite <- rev_app_distr, <- Hu, rev_involutive. exact Hs.
Qed.

Lemma trim_incl (s : jsstring) (x : N) : In x (trim s) -> In x s.
Proof.
  destruct (trim_split s) as (w1 & w2 & Hs & _). intros H.
  rewrite Hs. apply in_or_app. right. apply in_or_app. left. exact H.
Qed.

Lemma trim_idempotent (s : jsstring) : trim (trim s) = trim s.
Proof.
  assert (Hstart : trimStart (trim s) = trim s).
  { unfold trim, trimEnd.
    destruct (trimStart_split (rev (trimStart s))) as (w & Hu & _).
    apply (f_equal (@rev N)) in Hu. rewrite rev_involutive, rev_app_distr in Hu.
    destruct (rev (trimStart (rev (trimStart s)))) as [|x t] eqn:Et; [reflexivity|].
    cbn [app] in Hu. apply trimStart_head in Hu.
    cbn [trimStart]. rewrite Hu. reflexivity. }
  unfold trim at 1. rewrite Hstart. unfold trim, trimEnd.
  rewrite rev_involutive, trimStart_idempotent. reflexivity.
Qed.

Lemma forallb_trim (f : N -> bool) (s : jsstring) :
  forallb f s = true -> forallb f (trim s) = true.
Proof.
  intros H. apply forallb_forall. intros x Hx.
  rewrite forallb_forall in H. apply H, trim_incl, Hx.
Qed.

Lemma split_lines_no_line_feed (s line : jsstring) :
  In line (split_lines s) -> forallb (fun c => negb (c =? LF)%N) line = true.
Proof.
  revert line. induction s as [|c s IH]; intros line Hline; cbn [split_lines] in Hline.
  - destruct Hline as [<-|[]]. reflexivity.
  - destruct (split_lines s) as [|l ls] eqn:Hs.
    + exfalso. exact (split_lines_nonempty s Hs).
    + destruct (c =? LF)%N eqn:Hc.
      * destruct Hline as [<-|Hline]; [reflexivity|]. apply IH, Hline.
      * destruct Hline as [<-|Hline].
        -- cbn [forallb]. rewrite Hc. cbn [negb andb]. apply IH. left. reflexivity.
        -- apply IH. right. exact Hline.
Qed.

(** X15.  The names of a record: the contract holds no colon and the
    function no opening parenthesis, neither holds a line feed, and neither
    starts or ends with white space. *)
Theorem parseGasDiff_record_names (diffOutput : jsstring) (c : change) :
  In c (parseGasDiff diffOutput) ->
  forallb (noneOf ":") (contract c) = true /\
  forallb (noneOf "(") (function c) = true /\
  forallb (fun x => negb (x =? LF)%N) (contract c ++ function c) = true /\
  trim (contract c) = contract c /\
  trim (function c) = function c.
Proof.
  intros H. apply record_line_shape in H.
  destruct H as (line & sign & cn & fn & text & digits & space & Hline & Hshape
                 & _ & -> & -> & _).
  destruct Hshape as (Heq & _ & _ & Hcn & _ & Hfn & _).
  split; [apply forallb_trim, Hcn|]. split; [apply forallb_trim, Hfn|].
  split; [|split; apply trim_idempotent].
  apply split_lines_no_line_feed in Hline.
  rewrite forallb_forall in Hline. apply forallb_forall. intros x Hx.
  apply Hline. rewrite Heq. right.
  apply in_app_or in Hx. destruct Hx as [Hx|Hx]; apply trim_incl in Hx.
  - apply in_or_app. left. exact Hx.
  - apply in_or_app. right. apply in_or_app. right.
    apply in_or_app. left. exact Hx.
Qed.

Lemma parseGasDiff_record_names_witness :
  forallb (noneOf ":") (lit "A b") = true /\
  forallb (noneOf "(") (lit "foo bar") = true /\
  forallb (fun x => negb (x =? LF)%N) (lit "A b" ++ lit "foo bar") = true /\
  trim (lit "A b") = lit "A b" /\
  trim (lit "foo bar") = lit "foo bar".
Proof.
  apply (parseGasDiff_record_names
           (lit "-A b : foo bar () x 12 34 -> 5   ")
           (Change improvement (lit "A b") (lit "foo bar") (Some 34) 5 (-29))).
  vm_compute. left. reflexivity.
Defined.

(** ** Lines of the shape are found *)

(** Without lookahead, the matcher finds a match wherever the expression
    can take the subject to a position that the continuation accepts. *)
Lemma run_complete (r : regex) (p q : position) (c d : captures) :
  Matches r p c q d ->
  lookFree r = true ->
  forall k, k q d <> None ->
    run r p c k <> None /\
    (forall g r', r = Star g r' ->
       forall fuel, (length (rest p) <= fuel)%nat ->
         star_loop (run r') g k fuel p c <> None).
Proof.
  induction 1 as [f b x xs c Hf
                 |r1 r2 p c p1 c1 p2 c2 _ IH1 _ IH2
                 |g r p c
                 |g r p c p1 c1 p2 c2 _ IH1 Hlt _ IH2
                 |n r p c p1 c1 _ IH
                 |s c|b c|p c Hb|r p c p1 c1 _ _|r p c];
    intros Hfree k Hk; cbn [lookFree] in Hfree; try discriminate.
  - split; [|intros g r' Hr; discriminate].
    cbn [run rest]. rewrite Hf. exact Hk.
  - apply andb_true_iff in Hfree. destruct Hfree as [Hf1 Hf2].
    split; [|intros g r' Hr; discriminate]. cbn [run].
    apply (IH1 Hf1). apply (IH2 Hf2 k Hk).
  - assert (Hloop : forall fuel, star_loop (run r) g k fuel p c <> None).
    { intros [|fuel]; cbn [star_loop]; [exact Hk|].
      destruct g; unfold orElse.
      - destruct (run r p c _); [discriminate|exact Hk].
      - destruct (k p c); [discriminate|contradiction]. }
    split; [cbn [run]; apply Hloop|].
    intros g' r' Hr fuel _. injection Hr as <- <-. apply Hloop.
  - assert (Hloop : forall fuel, (length (rest p) <= fuel)%nat ->
                                 star_loop (run r) g k fuel p c <> None).
    { intros [|fuel] Hfuel; [lia|]. cbn [star_loop].
      assert (Hagain :
        run r p c (fun p' c' =>
          if (length (rest p') <? length (rest p))%nat
          then star_loop (run r) g k fuel p' c' else None) <> None).
      { apply (IH1 Hfree).
        apply Nat.ltb_lt in Hlt. rewrite Hlt.
        apply (proj2 (IH2 Hfree k Hk) g r eq_refl).
        apply Nat.ltb_lt in Hlt. lia. }
      destruct g; unfold orElse.
      - destruct (run r p c _); [discriminate|contradiction].
      - destruct (k p c); [discriminate|exact Hagain]. }
    split; [cbn [run]; apply Hloop, le_n|].
    intros g' r' Hr fuel Hfuel. injection Hr as <- <-. apply Hloop, Hfuel.
  - split; [|intros g r' Hr; discriminate]. cbn [run].
    apply (IH Hfree). exact Hk.
  - split; [|intros g r' Hr; discriminate]. exact Hk.
  - split; [|intros g r' Hr; discriminate]. exact Hk.
  - split; [|intros g r' Hr; discriminate]. cbn [run].
    rewrite Hb, Bool.eqb_reflx. exact Hk.
Qed.

Lemma Matches_star_chr_intro (g : bool) (f : N -> bool) (taken : jsstring) :
  forall (b : option N) (r : jsstring) (c : captures),
    forallb f taken = true ->
    Matches (Star g (Chr f)) (Pos b (taken ++ r)) c (Pos (beforeAfter b taken) r) c.
Proof.
  induction taken as [|x t IH]; intros b r c Hall.
  - apply M_Star_stop.
  - cbn [forallb] in Hall. apply andb_true_iff in Hall. destruct Hall as [Hx Ht].
    cbn [app]. eapply M_Star_step.
    + apply M_Chr. exact Hx.
    + cbn [rest length]. lia.
    + apply IH. exact Ht.
Qed.

Lemma Matches_group_plus_chr_intro (n : nat) (g : bool) (f : N -> bool)
    (taken : jsstring) (b : option N) (r : jsstring) (c : captures) :
  taken <> [] -> forallb f taken = true ->
  Matches (Group n (Plus g (Chr f))) (Pos b (taken ++ r)) c
    (Pos (beforeAfter b taken) r) ((n, taken) :: c).
Proof.
  intros Hne Hall. destruct taken as [|x t]; [contradiction|].
  cbn [forallb] in Hall. apply andb_true_iff in Hall. destruct Hall as [Hx Ht].
  assert (H : Matches (Group n (Plus g (Chr f))) (Pos b ((x :: t) ++ r)) c
                (Pos (beforeAfter b (x :: t)) r)
                ((n, between (Pos b ((x :: t) ++ r))
                             (Pos (beforeAfter b (x :: t)) r)) :: c)).
  { apply M_Group. unfold Plus. eapply M_Seq.
    - cbn [app]. apply M_Chr. exact Hx.
    - apply (Matches_star_chr_intro g f t (Some x) r c Ht). }
  rewrite (between_taken (Pos b ((x :: t) ++ r)) (Pos (beforeAfter b (x :: t)) r)
             (x :: t) eq_refl) in H.
  exact H.
Qed.

Lemma Matches_chr_intro (f : N -> bool) (b : option N) (x : N) (xs : jsstring)
    (c : captures) :
  f x = true -> Matches (Chr f) (Pos b (x :: xs)) c (Pos (Some x) xs) c.
Proof. apply M_Chr. Qed.

(** A line of the shape is matched by the change expression. *)
Lemma changeRe_finds_shape (line : jsstring) (sign : N)
    (contract func text digits space : jsstring) :
  lineShape line sign contract func text digits space ->
  str_match line changeRe <> None.
Proof.
  intros (-> & Hsign & Hcne & Hcall & Hfne & Hfall & Htext & Hdne & Hdall & Hspace).
  unfold str_match.
  set (s := sign :: contract ++ lit ":" ++ func ++ lit "()" ++ text ++ digits ++ space).
  assert (Hat : matchAt changeRe (Pos None s) <> None).
  { unfold matchAt. unfold s. rewrite <- (app_nil_r space).
    eapply run_complete; [|reflexivity|discriminate].
    unfold changeRe, dataLineRe.
    eapply M_Seq; [apply M_Bol|].
    eapply M_Seq; [apply M_Group, M_Chr, Hsign|].
    eapply M_Seq; [apply Matches_group_plus_chr_intro; eassumption|].
    eapply M_Seq; [apply M_Chr; reflexivity|].
    eapply M_Seq; [apply Matches_group_plus_chr_intro; eassumption|].
    eapply M_Seq; [apply M_Chr; reflexivity|].
    eapply M_Seq; [apply M_Chr; reflexivity|].
    eapply M_Seq; [apply Matches_star_chr_intro; eassumption|].
    eapply M_Seq; [apply Matches_group_plus_chr_intro; eassumption|].
    eapply M_Seq; [apply Matches_star_chr_intro; exact Hspace|].
    apply M_Eol. }
  destruct s as [|x xs]; cbn [exec_from];
    destruct (matchAt changeRe _) as [[q m]|]; try discriminate; contradiction.
Qed.

Lemma first_stop_unique (f : N -> bool) (a a' : jsstring) :
  forall (x x' : N) (r r' : jsstring),
    forallb f a = true -> forallb f a' = true ->
    f x = false -> f x' = false ->
    a ++ x :: r = a' ++ x' :: r' ->
    a = a' /\ r = r'.
Proof.
  revert a'. induction a as [|y a IH]; intros [|y' a'] x x' r r' Ha Ha' Hx Hx' Heq;
    cbn [app forallb] in *.
  - injection Heq as _ ->. split; reflexivity.
  - injection Heq as -> _. apply andb_true_iff in Ha'. destruct Ha' as [Hy _].
    congruence.
  - injection Heq as -> _. apply andb_true_iff in Ha. destruct Ha as [Hy _].
    congruence.
  - injection Heq as -> Heq.
    apply andb_true_iff in Ha. apply andb_true_iff in Ha'.
    destruct (IH a' x x' r r' (proj2 Ha) (proj2 Ha') Hx Hx' Heq) as [-> ->].
    split; reflexivity.
Qed.

(** X16.  Every line of the shape gives a record: exactly one, of the type
    that goes with the sign, with the two names as the line has them, white
    space around them taken off. *)
Theorem parseLine_of_shape (diffOutput line : jsstring) (sign : N)
    (contractName functionName text digits space : jsstring) :
  In line (split_lines diffOutput) ->
  lineShape line sign contractName functionName text digits space ->
  exists c : change,
    parseLine line = [c] /\ In c (parseGasDiff diffOutput) /\
    type c = typeOfSign sign /\
    contract c = trim contractName /\
    function c = trim functionName.
Proof.
  intros Hline Hshape.
  pose proof (changeRe_finds_shape _ _ _ _ _ _ _ Hshape) as Hfound.
  destruct (str_match line changeRe) as [changeMatch|] eqn:Hm; [|contradiction].
  pose proof (changeRe_shape line changeMatch Hm)
    as (sign' & cn' & fn' & text' & digits' & space' & Hshape' & H1 & H2 & H3 & H4).
  destruct Hshape as (Heq & Hsign & _ & Hcn & _ & Hfn & _).
  destruct Hshape' as (Heq' & Hsign' & _ & Hcn' & _ & Hfn' & _).
  rewrite Heq in Heq'. injection Heq' as <- Heq'.
  destruct (first_stop_unique (noneOf ":") contractName cn' 58 58 _ _
              Hcn Hcn' eq_refl eq_refl Heq') as [<- Heq2].
  destruct (first_stop_unique (noneOf "(") functionName fn' 40 40 _ _
              Hfn Hfn' eq_refl eq_refl Heq2) as [<- _].
  assert (Hparse : exists c, parseLine line = [c] /\ type c = typeOfSign sign /\
                             contract c = trim contractName /\
                             function c = trim functionName).
  { unfold parseLine. rewrite Hm, H1, H2, H3. eexists. split; [reflexivity|].
    cbn [type contract function]. split; [apply sign_type, Hsign|].
    split; reflexivity. }
  destruct Hparse as (c & Hparse & Htype & Hcontract & Hfunction).
  exists c. split; [exact Hparse|]. split; [|auto].
  eapply parseLine_in_parseGasDiff; [exact Hline|].
  rewrite Hparse. left. reflexivity.
Qed.

Lemma parseLine_of_shape_witness :
  exists c : change,
    parseLine (lit "+Token:transfer() gas 1000 -> 1200") = [c] /\
    In c (parseGasDiff (lit "+Token:transfer() gas 1000 -> 1200")) /\
    type c = regression /\
    contract c = lit "Token" /\
    function c = lit "transfer".
Proof.
  apply (parseLine_of_shape (lit "+Token:transfer() gas 1000 -> 1200")
           (lit "+Token:transfer() gas 1000 -> 1200") 43
           (lit "Token") (lit "transfer") (lit " gas 1000 -> ") (lit "1200") []).
  - left. reflexivity.
  - unfold lineShape. repeat split; discriminate.
Defined.

(** ** The PR number of the data file *)





Lemma run_literalOf (l : jsstring) (next : regex) :
  forall (b : option N) (s : jsstring) (c : captures) (k : continuation),
    run (literalOf l next) (Pos b (l ++ s)) c k =
    run next (Pos (beforeAfter b l) s) c k.
Proof.
  induction l as [|x l IH]; intros b s c k; [reflexivity|].
  cbn [literalOf fold_right app run rest]. rewrite N.eqb_refl.
  apply IH.
Qed.

Lemma run_chr_cons (f : N -> bool) (b : option N) (x : N) (xs : jsstring)
    (c : captures) (k : continuation) :
  run (Chr f) (Pos b (x :: xs)) c k = if f x then k (Pos (Some x) xs) c else None.
Proof. reflexivity. Qed.

Lemma run_chr_nil (f : N -> bool) (b : option N) (c : captures) (k : continuation) :
  run (Chr f) (Pos b []) c k = None.
Proof. reflexivity. Qed.

(** A greedy repetition of one class takes all that is there. *)
Lemma star_chr_greedy (f : N -> bool) (k : continuation) (taken : jsstring) :
  forall (b : option N) (r : jsstring) (c : captures) (fuel : nat),
    forallb f taken = true ->
    match r with [] => true | x :: _ => negb (f x) end = true ->
    (length (taken ++ r) <= fuel)%nat ->
    k (Pos (beforeAfter b taken) r) c <> None ->
    star_loop (run (Chr f)) true k fuel (Pos b (taken ++ r)) c =
    k (Pos (beforeAfter b taken) r) c.
Proof.
  induction taken as [|x t IH]; intros b r c fuel Hall Hstop Hfuel Hk.
  - cbn [app beforeAfter fold_left]. destruct fuel as [|fuel]; [reflexivity|].
    cbn [star_loop].
    destruct r as [|y r]; [rewrite run_chr_nil; reflexivity|].
    apply negb_true_iff in Hstop. rewrite run_chr_cons, Hstop. reflexivity.
  - cbn [forallb] in Hall. apply andb_true_iff in Hall. destruct Hall as [Hx Ht].
    destruct fuel as [|fuel]; [cbn [app length] in Hfuel; lia|].
    cbn [app star_loop]. rewrite run_chr_cons, Hx. cbn [rest length].
    replace (length (t ++ r) <? S (length (t ++ r)))%nat with true
      by (symmetry; apply Nat.ltb_lt; lia).
    cbn [app length] in Hfuel.
    rewrite (IH (Some x) r c fuel Ht Hstop ltac:(lia) Hk).
    change (beforeAfter (Some x) t) with (beforeAfter b (x :: t)).
    destruct (k (Pos (beforeAfter b (x :: t)) r) c) eqn:E; [reflexivity|].
    contradiction.
Qed.

Lemma matchAt_prNumberRe_here (b : option N) (digits post : jsstring) :
  digits <> [] -> forallb isDigit digits = true -> startsWithDigit post = false ->
  exists q,
    matchAt prNumberRe (Pos b (lit "PR_NUMBER=" ++ digits ++ post)) =
    Some (q, [(1%nat, digits)]).
Proof.
  intros Hne Hall Hpost. unfold matchAt, prNumberRe.
  rewrite run_literalOf. destruct digits as [|x t]; [contradiction|].
  cbn [forallb] in Hall. apply andb_true_iff in Hall. destruct Hall as [Hx Ht].
  unfold Plus.
  change (run (Group 1 (Seq (Chr isDigit) (Star true (Chr isDigit)))) ?p ?c ?k)
    with (run (Chr isDigit) p c
            (fun p1 c1 => star_loop (run (Chr isDigit)) true
                            (fun p' c' => k p' ((1%nat, between p p') :: c'))
                            (length (rest p1)) p1 c1)).
  cbn [app]. rewrite run_chr_cons, Hx. cbn [rest].
  rewrite star_chr_greedy; try assumption.
  - eexists. rewrite between_taken with (taken := x :: t); reflexivity.
  - destruct post as [|y post]; [reflexivity|].
    cbn [startsWithDigit] in Hpost. rewrite Hpost. reflexivity.
  - apply le_n.
  - discriminate.
Qed.

Lemma matchAt_prNumberRe_not_here (b : option N) (s : jsstring) :
  match s with [] => true | x :: _ => negb (x =? 80)%N end = true ->
  matchAt prNumberRe (Pos b s) = None.
Proof.
  intros H. unfold matchAt, prNumberRe.
  change (lit "PR_NUMBER=") with (80%N :: lit "R_NUMBER=").
  cbn [literalOf fold_right run rest].
  destruct s as [|x s]; [reflexivity|].
  apply negb_true_iff in H. rewrite N.eqb_sym, H. reflexivity.
Qed.

Lemma exec_from_prNumberRe (pre digits post : jsstring) :
  forall b,
    forallb (fun c => negb (c =? 80)%N) pre = true ->
    digits <> [] -> forallb isDigit digits = true -> startsWithDigit post = false ->
    exec_from prNumberRe b (pre ++ lit "PR_NUMBER=" ++ digits ++ post) =
    Some [(1%nat, digits)].
Proof.
  induction pre as [|x pre IH]; intros b Hpre Hne Hall Hpost.
  - cbn [app].
    destruct (matchAt_prNumberRe_here b digits post Hne Hall Hpost) as (q & Hq).
    change (lit "PR_NUMBER=" ++ digits ++ post)
      with (80%N :: lit "R_NUMBER=" ++ digits ++ post) in *.
    cbn [exec_from]. rewrite Hq. reflexivity.
  - cbn [forallb] in Hpre. apply andb_true_iff in Hpre. destruct Hpre as [Hx Hpre].
    cbn [app exec_from]. rewrite matchAt_prNumberRe_not_here by exact Hx.
    apply IH; assumption.
Qed.

(** X18.  [parsePRNumber] reads back a number written after the marker:
    where the data file holds [PR_NUMBER=] and the decimal digits of a safe
    integer [n] that is not negative, with no letter [P] before the marker
    and no digit right after the number, it returns [n]. *)
Theorem parsePRNumber_reads_number (join : jsstring -> jsstring -> jsstring)
    (w : world) (fs : files) (dataFileName workspace pre post : jsstring) (n : Z) :
  env w "GITHUB_WORKSPACE" = Some workspace ->
  fs (join workspace dataFileName) =
    Some (pre ++ lit "PR_NUMBER=" ++ toString n ++ post) ->
  0 <= n <= MAX_SAFE_INTEGER ->
  forallb (fun c => negb (c =? 80)%N) pre = true ->
  startsWithDigit post = false ->
  parsePRNumber join w fs dataFileName = Returned (Some n).
Proof.
  intros Hws Hfile [Hn _] Hpre Hpost. unfold parsePRNumber. rewrite Hws, Hfile.
  unfold str_match. rewrite exec_from_prNumberRe; try assumption.
  - unfold captured. cbn [group Nat.eqb]. rewrite parseInt_toString by exact Hn.
    reflexivity.
  - intros H. pose proof (parseInt_toString n Hn) as Hp. rewrite H in Hp.
    pose proof (toString_digits n Hn) as Hd.
    destruct n as [|p|p]; [discriminate H| |lia].
    cbn in Hp. discriminate.
  - apply toString_digits, Hn.
Qed.


Lemma parsePRNumber_reads_number_witness :
  parsePRNumber joinPlain sampleWorkspace sampleDataFiles (lit "pr-data.txt") =
  Returned (Some 42).
Proof.
  apply (parsePRNumber_reads_number joinPlain sampleWorkspace sampleDataFiles
           (lit "pr-data.txt") (lit "/work") [] [LF] 42).
  - reflexivity.
  - reflexivity.
  - vm_compute. split; discriminate.
  - reflexivity.
  - reflexivity.
Defined.

(** ** The digits of the new gas *)








(** ** Lines that end with a parenthesis *)

Lemma shape_does_not_end_with_paren (line : jsstring) (sign : N)
    (contract func text digits space : jsstring) :
  lineShape line sign contract func text digits space ->
  endsWithCloseParen line = false.
Proof.
  intros (-> & _ & _ & _ & _ & _ & _ & Hdne & Hdall & Hspace).
  unfold endsWithCloseParen.
  assert (Hlast : forall pre l, l <> [] ->
            forallb (fun c => isDigit c || isWhiteSpace c) l = true ->
            match rev (pre ++ l) with c :: _ => (c =? 41)%N | [] => false end = false).
  { intros pre l Hl Hall. destruct (rev l) as [|y t] eqn:E.
    - apply (f_equal (@rev N)) in E. rewrite rev_involutive in E. contradiction.
    - rewrite rev_app_distr, E. cbn [app].
      rewrite <- forallb_rev, E in Hall. cbn [forallb] in Hall.
      apply andb_true_iff in Hall. destruct Hall as [Hy _].
      destruct (y =? 41)%N eqn:Hp; [|reflexivity].
      apply N.eqb_eq in Hp. subst y. discriminate. }
  assert (Heq : sign :: contract ++ lit ":" ++ func ++ lit "()" ++ text ++ digits ++ space =
                (sign :: contract ++ lit ":" ++ func ++ lit "()" ++ text) ++ (digits ++ space)).
  { cbn [app]. f_equal. rewrite <- !app_assoc. reflexivity. }
  rewrite Heq.
  apply (Hlast (sign :: contract ++ lit ":" ++ func ++ lit "()" ++ text) (digits ++ space)).
  - destruct digits; [contradiction|discriminate].
  - rewrite forallb_app. apply andb_true_iff. split.
    + apply forallb_forall. intros x Hx. rewrite forallb_forall in Hdall.
      rewrite (Hdall x Hx). reflexivity.
    + apply forallb_forall. intros x Hx. rewrite forallb_forall in Hspace.
      rewrite (Hspace x Hx). apply orb_true_r.
Qed.

(** X19.  A line gives a record only if it ends with the digits of the new
    gas, white space after them aside: text in which every line that is not
    blank ends with a closing parenthesis has no record. *)
Theorem parseGasDiff_parenthesised_lines_skipped (diffOutput : jsstring) :
  forallb (fun line => negb (truthy_str (trim line)) || endsWithCloseParen line)
          (split_lines diffOutput) = true ->
  parseGasDiff diffOutput = [].
Proof.
  intros Hall. destruct (parseGasDiff diffOutput) as [|c cs] eqn:Hparse; [reflexivity|].
  exfalso.
  assert (Hc : In c (parseGasDiff diffOutput)) by (rewrite Hparse; left; reflexivity).
  pose proof Hc as Hshape. apply record_line_shape in Hshape.
  destruct Hshape as (line & sign & cn & fn & text & digits & space & Hline & Hshape & _).
  rewrite forallb_forall in Hall. specialize (Hall line Hline).
  rewrite (shape_does_not_end_with_paren _ _ _ _ _ _ _ Hshape), orb_false_r in Hall.
  apply negb_true_iff in Hall.
  assert (Hsigned : startsWithSign line = true).
  { destruct Hshape as (-> & Hsign & _). exact Hsign. }
  rewrite (signed_line_not_blank line Hsigned) in Hall. discriminate.
Qed.

Lemma parseGasDiff_parenthesised_lines_skipped_witness :
  parseGasDiff (lit "+Token:transfer() (gas: 1000 -> 1200)

-Token:approve() (gas: 500 -> 300)") = [].
Proof.
  apply parseGasDiff_parenthesised_lines_skipped. vm_compute. reflexivity.
Defined.
